(** * The chunk / embed / collect pipeline of the BigQuery RAG quick-start

    Shallow embedding of the Python helpers of
    [examples/chatgpt/rag-quickstart/gcp/Getting_started_with_bigquery_vector_search_and_openai.ipynb]:
    [batched], [chunked_tokens], [generate_embeddings],
    [len_safe_get_embedding], [categorize_text], [extract_text_from_pdf],
    [process_file] and the thread-pool collection loop.

    Conventions.
    - Python integers are [Z]; positions produced by [enumerate] are [nat].
    - A Python generator is a value of a frame type together with a [next]
      function returning a signal and the advanced frame, so that the
      laziness and the single-pass nature of generators are visible.
    - Code that can raise returns [exn + A]; code that also prints returns
      [io A], the printed lines paired with the outcome.
    - The libraries the notebook calls (tiktoken, the OpenAI client, the file
      system, the PDF reader, json) are fields of the record [Env]. *)

From Stdlib Require Import String Ascii DecimalString.
From Stdlib Require Import List ZArith Lia Bool Permutation QArith.
From Stdlib Require DecimalNat.
Import ListNotations.

Close Scope Q_scope.
Open Scope string_scope.
Open Scope list_scope.
Open Scope nat_scope.

(** ** Exceptions *)

(** The subclasses of Python's [Exception] that the modelled code can meet.
    Every one of them is caught by [except Exception]. *)
Inductive exn : Type :=
| ValueError (msg : string)
| IndexError (msg : string)
| UnboundLocalError (msg : string)
| OSError (msg : string)
| APIError (msg : string)
| OtherError (msg : string).

(** [str(e)] *)
Definition str_exn (e : exn) : string :=
  match e with
  | ValueError m | IndexError m | UnboundLocalError m
  | OSError m | APIError m | OtherError m => m
  end.

Definition is_ValueError (e : exn) : bool :=
  match e with ValueError _ => true | _ => false end.

(** ** The error monad *)

Module Exc.
Definition ret {A} (a : A) : exn + A := inr a.
Definition bind {A B} (m : exn + A) (f : A -> exn + B) : exn + B :=
  match m with
  | inl e => inl e
  | inr a => f a
  end.
End Exc.

Declare Scope exc_scope.
Delimit Scope exc_scope with exc.
Notation "x <- m ;; k" := (Exc.bind m (fun x => k))
  (at level 61, m at next level, right associativity) : exc_scope.

(** Left-to-right monadic fold: the body of a loop run over a list. *)
Fixpoint foldM {S Y : Type} (body : S -> Y -> exn + S) (ys : list Y) (s : S)
  : exn + S :=
  match ys with
  | [] => inr s
  | y :: ys' =>
      match body s y with
      | inl e => inl e
      | inr s' => foldM body ys' s'
      end
  end.

(** ** Tokens, vectors and the tokenizer *)

Definition token := Z.
Definition vector := list Q.

(** A tiktoken [Encoding] object. *)
Record Encoding : Type := {
  encode : string -> list token;
  decode : list token -> string
}.

(** ** Generators *)

(** What one call of [next] on a generator produces. *)
Inductive signal (Y : Type) : Type :=
| Yield (y : Y)
| StopIteration
| Raise (e : exn).
Arguments Yield {Y} y.
Arguments StopIteration {Y}.
Arguments Raise {Y} e.

(** *** [batched] *)

(** The frame of a [batched] generator: created but not started, suspended
    at its [yield] with the list iterator [it] partly consumed, or
    finished. *)
Inductive batched_frame : Type :=
| BatchedStart (iterable : list token) (n : Z)
| BatchedSuspended (it : list token) (n : Z)
| BatchedFinished.

(** Calling the generator function only creates the frame. *)
Definition batched (iterable : list token) (n : Z) : batched_frame :=
  BatchedStart iterable n.

(** [sys.maxsize] of a 64-bit CPython: the largest stop argument [islice]
    accepts. *)
Definition sys_maxsize : Z := 9223372036854775807.

Definition islice_error : exn :=
  ValueError
    "Stop argument for islice() must be None or an integer: 0 <= x <= sys.maxsize.".

(** [tuple(islice(it, n))] on a list iterator: the batch and the advanced
    iterator.  [islice] refuses a stop argument that is negative or above
    [sys.maxsize]. *)
Definition islice (it : list token) (n : Z)
  : exn + (list token * list token) :=
  if (n <? 0)%Z || (sys_maxsize <? n)%Z
  then inl islice_error
  else inr (firstn (Z.to_nat n) it, skipn (Z.to_nat n) it).

(** One turn of [while (batch := tuple(islice(it, n))): yield batch]. *)
Definition batched_loop (it : list token) (n : Z)
  : signal (list token) * batched_frame :=
  match islice it n with
  | inl e => (Raise e, BatchedFinished)
  | inr (batch, it') =>
      match batch with
      | [] => (StopIteration, BatchedFinished)
      | _ :: _ => (Yield batch, BatchedSuspended it' n)
      end
  end.

Definition batched_next (g : batched_frame)
  : signal (list token) * batched_frame :=
  match g with
  | BatchedStart iterable n =>
      if (n <? 1)%Z
      then (Raise (ValueError "n must be at least one"), BatchedFinished)
      else batched_loop iterable n
  | BatchedSuspended it n => batched_loop it n
  | BatchedFinished => (StopIteration, BatchedFinished)
  end.

(** *** [chunked_tokens] *)

Inductive chunked_frame : Type :=
| ChunkedStart (text : string) (chunk_length : Z) (encoding_name : string)
| ChunkedDelegating (chunks_iterator : batched_frame)
| ChunkedFinished.

Definition chunked_tokens (text : string) (chunk_length : Z)
    (encoding_name : string) : chunked_frame :=
  ChunkedStart text chunk_length encoding_name.

(** [yield from chunks_iterator]: one step of the delegation. *)
Definition yield_from (chunks_iterator : batched_frame)
  : signal (list token) * chunked_frame :=
  match batched_next chunks_iterator with
  | (Yield batch, g') => (Yield batch, ChunkedDelegating g')
  | (StopIteration, _) => (StopIteration, ChunkedFinished)
  | (Raise e, _) => (Raise e, ChunkedFinished)
  end.

Section Chunking.

(** [tiktoken.get_encoding] *)
Variable get_encoding : string -> exn + Encoding.

Definition chunked_next (g : chunked_frame)
  : signal (list token) * chunked_frame :=
  match g with
  | ChunkedStart text chunk_length encoding_name =>
      match get_encoding encoding_name with
      | inl e => (Raise e, ChunkedFinished)
      | inr encoding =>
          let tokens := encode encoding text in
          let chunks_iterator := batched tokens chunk_length in
          yield_from chunks_iterator
      end
  | ChunkedDelegating chunks_iterator => yield_from chunks_iterator
  | ChunkedFinished => (StopIteration, ChunkedFinished)
  end.

(** An upper bound on the number of [next] calls a frame still answers
    with something other than [StopIteration], plus one. *)
Definition batched_budget (g : batched_frame) : nat :=
  match g with
  | BatchedStart l _ | BatchedSuspended l _ => S (length l)
  | BatchedFinished => 1
  end.

Definition chunked_budget (g : chunked_frame) : nat :=
  match g with
  | ChunkedStart text _ encoding_name =>
      match get_encoding encoding_name with
      | inl _ => 1
      | inr encoding => S (S (length (encode encoding text)))
      end
  | ChunkedDelegating inner => S (batched_budget inner)
  | ChunkedFinished => 1
  end.

(** [for y in g: s = body(s, y)], where the body may raise.  The result
    is the outcome of the loop and the frame the generator is left in.
    [fuel] bounds the number of turns; [for_chunks] passes the budget of the
    frame, which always suffices: lemma [for_chunks_eq] below is the plain
    equation of the loop, with no fuel in it. *)
Fixpoint for_fuel {S : Type} (body : S -> list token -> exn + S)
    (fuel : nat) (g : chunked_frame) (s : S) : (exn + S) * chunked_frame :=
  match fuel with
  | O => (inr s, g)
  | Datatypes.S fuel' =>
      match chunked_next g with
      | (Yield y, g') =>
          match body s y with
          | inl e => (inl e, g')
          | inr s' => for_fuel body fuel' g' s'
          end
      | (StopIteration, g') => (inr s, g')
      | (Raise e, g') => (inl e, g')
      end
  end.

Definition for_chunks {S : Type} (body : S -> list token -> exn + S)
    (g : chunked_frame) (s : S) : (exn + S) * chunked_frame :=
  for_fuel body (chunked_budget g) g s.

(** [list(g)]: the chunks one full iteration of [g] yields. *)
Definition list_of (g : chunked_frame)
  : (exn + list (list token)) * chunked_frame :=
  for_chunks (fun acc chunk => inr (acc ++ [chunk])) g [].

End Chunking.

(** The partition [batched] walks through, as a list: groups of [k]
    consecutive elements, the last one possibly shorter. *)
Fixpoint groups_fuel (fuel k : nat) (l : list token) : list (list token) :=
  match fuel with
  | O => []
  | S fuel' =>
      match l with
      | [] => []
      | _ :: _ => firstn k l :: groups_fuel fuel' k (skipn k l)
      end
  end.

Definition groups (k : nat) (l : list token) : list (list token) :=
  groups_fuel (length l) k l.

(** ** Printing and raising *)

(** A computation that prints lines and then returns or raises. *)
Definition io (A : Type) : Type := list string * (exn + A).

Module IO.
Definition ret {A} (a : A) : io A := ([], inr a).
Definition bind {A B} (m : io A) (f : A -> io B) : io B :=
  match m with
  | (out, inl e) => (out, inl e)
  | (out, inr a) => let '(out', r) := f a in (out ++ out', r)
  end.
Definition print (line : string) : io unit := ([line], inr tt).
Definition raise {A} (e : exn) : io A := ([], inl e).
Definition lift {A} (r : exn + A) : io A := ([], r).
(** [try: m  except Exception as e: handler e] *)
Definition try_except {A} (m : io A) (handler : exn -> io A) : io A :=
  match m with
  | (out, inl e) => let '(out', r) := handler e in (out ++ out', r)
  | (out, inr a) => (out, inr a)
  end.
End IO.

Declare Scope io_scope.
Delimit Scope io_scope with io.
Notation "x <- m ;; k" := (IO.bind m (fun x => k))
  (at level 61, m at next level, right associativity) : io_scope.
Notation "m ;; k" := (IO.bind m (fun _ => k))
  (at level 61, right associativity) : io_scope.

(** ** The libraries and services the notebook calls *)

(** The [input] argument of an embedding request: the notebook passes a
    string for queries and a tuple of token ids for chunks. *)
Inductive embed_input : Type :=
| InputText (s : string)
| InputTokens (l : list token).

(** A chat message: role and content. *)
Record message : Type := { role : string; content : string }.

(** [openai_client].  An embeddings response is represented by the list of
    its [data[i].embedding]; a chat response by the list of its
    [choices[i].message.content], which may be [None]. *)
Record OpenAI : Type := {
  embeddings_create : string -> embed_input -> exn + list vector;
  chat_completions_create : string -> list message -> exn + list (option string)
}.

Record Env : Type := {
  tiktoken_get_encoding : string -> exn + Encoding;
  openai_client : OpenAI;
  (** [os.path.basename] *)
  basename : string -> string;
  (** [open(path, 'r', encoding='utf-8').read()] *)
  read_text : string -> exn + string;
  (** [PdfReader(path).pages], each page given by what its
      [extract_text()] does *)
  PdfReader_pages : string -> exn + list (exn + string);
  json_dumps : vector -> string
}.

(** ** Small pieces of Python *)

(** [l[i]] *)
Definition index {A} (l : list A) (i : nat) : exn + A :=
  match nth_error l i with
  | Some a => inr a
  | None => inl (IndexError "list index out of range")
  end.

(** [s.endswith(suffix)] *)
Definition endswith (s suffix : string) : bool :=
  let n := String.length s in
  let k := String.length suffix in
  (k <=? n) && String.eqb (substring (n - k) k s) suffix.

(** [str(n)] for a non-negative integer *)
Definition str_nat (n : nat) : string :=
  NilZero.string_of_uint (Nat.to_uint n).

(** How an f-string renders a value that may be [None]. *)
Definition str_option (o : option string) : string :=
  match o with
  | Some s => s
  | None => "None"
  end.

(** [enumerate(l)] *)
Definition enumerate {A} (l : list A) : list (nat * A) :=
  combine (seq 0 (List.length l)) l.

(** ** The embedder *)

Definition EMBEDDING_CTX_LENGTH : Z := 8191.
Definition EMBEDDING_ENCODING : string := "cl100k_base".
Definition embeddings_model : string := "text-embedding-3-small".

Definition categories : list string :=
  ["authentication"; "models"; "techniques"; "tools"; "setup";
   "billing_limits"; "other"].

(** One row of the output table. *)
Record row : Type := {
  id : string;
  vector_id : string;
  title : string;
  text : string;
  title_vector : string;
  content_vector : string;
  category : option string
}.

Section Pipeline.

Variable env : Env.

Definition generate_embeddings (text : embed_input) (model : string)
  : exn + vector :=
  (embeddings_response_data <-
     embeddings_create (openai_client env) model text ;;
   index embeddings_response_data 0)%exc.

(** The body of the [for chunk in chunked_tokens(...)] loop; the state is
    the pair of lists [chunk_embeddings], [chunk_texts]. *)
Definition embed_chunk (model encoding_name : string)
    (acc : list vector * list string) (chunk : list token)
  : exn + (list vector * list string) :=
  let '(chunk_embeddings, chunk_texts) := acc in
  (embedding <- generate_embeddings (InputTokens chunk) model ;;
   encoding <- tiktoken_get_encoding env encoding_name ;;
   inr (chunk_embeddings ++ [embedding],
        chunk_texts ++ [decode encoding chunk]))%exc.

Definition len_safe_get_embedding (text : string) (model : string)
    (max_tokens : Z) (encoding_name : string)
  : exn + (list vector * list string) :=
  fst (for_chunks (tiktoken_get_encoding env)
         (embed_chunk model encoding_name)
         (chunked_tokens text max_tokens encoding_name)
         ([], [])).

(** ** Categorisation *)

Definition categorize_prompt (categories : list string) : string :=
  ("You are an expert in LLMs, and you will be given text that corresponds to an article in OpenAI's documentation.
         Categorize the document into one of these categories: "
   ++ String.concat ", " categories
   ++ ". Only respond with the category name and nothing else.")%string.

Definition categorize_text (text : string) (categories : list string)
  : io (option string) :=
  let messages :=
    [ {| role := "system"; content := categorize_prompt categories |};
      {| role := "user"; content := text |} ] in
  IO.try_except
    (IO.lift
       (response_choices <-
          chat_completions_create (openai_client env) "gpt-4o" messages ;;
        index response_choices 0)%exc)
    (fun e =>
       (IO.print ("Error categorizing text: " ++ str_exn e)%string ;;
        IO.ret None)%io).

(** ** Reading documents *)

Definition extract_text_from_pdf (pdf_path : string) : exn + string :=
  (pages <- PdfReader_pages env pdf_path ;;
   foldM (fun text page =>
            (page_text <- page ;; inr (text ++ page_text)%string)%exc)
         pages "")%exc.

(** The body of [for i, content_vector in enumerate(content_vectors)];
    the state is the list [data]. *)
Definition append_row (file_name : string) (idx : nat)
    (title_vectors : list vector) (title_text : list string)
    (content_vectors : list vector) (content_text : list string)
    (category : option string)
    (data : list row) (item : nat * vector) : io (list row) :=
  let '(i, content_vector) := item in
  (title0 <- IO.lift (index title_text 0) ;;
   text_i <- IO.lift (index content_text i) ;;
   title_vector0 <- IO.lift (index title_vectors 0) ;;
   let r := {| id := (str_nat idx ++ "_" ++ str_nat i)%string;
               vector_id := (str_nat idx ++ "_" ++ str_nat i)%string;
               title := title0;
               text := text_i;
               title_vector := json_dumps env title_vector0;
               content_vector := json_dumps env content_vector;
               category := category |} in
   IO.print ("Appended data for chunk " ++ str_nat (i + 1) ++ "/"
             ++ str_nat (List.length content_vectors) ++ " of "
             ++ file_name)%string ;;
   IO.ret (data ++ [r]))%io.

Fixpoint for_io {S Y : Type} (body : S -> Y -> io S) (ys : list Y) (s : S)
  : io S :=
  match ys with
  | [] => IO.ret s
  | y :: ys' => (s' <- body s y ;; for_io body ys' s')%io
  end.

Definition process_file (file_path : string) (idx : nat)
    (categories : list string) (embeddings_model : string)
  : io (list row) :=
  let file_name := basename env file_path in
  (IO.print ("Processing file " ++ str_nat (idx + 1) ++ ": "
             ++ file_name)%string ;;
   text <-
     (if endswith file_name ".txt" then
        t <- IO.lift (read_text env file_path) ;; IO.ret (Some t)
      else if endswith file_name ".pdf" then
        t <- IO.lift (extract_text_from_pdf file_path) ;; IO.ret (Some t)
      else IO.ret None) ;;
   let title := file_name in
   tt_ <- IO.lift (len_safe_get_embedding title embeddings_model
                     EMBEDDING_CTX_LENGTH EMBEDDING_ENCODING) ;;
   let '(title_vectors, title_text) := tt_ in
   IO.print ("Generated title embeddings for " ++ file_name)%string ;;
   text <-
     match text with
     | Some t => IO.ret t
     | None =>
         IO.raise (UnboundLocalError
           "cannot access local variable 'text' where it is not associated with a value")
     end ;;
   ct_ <- IO.lift (len_safe_get_embedding text embeddings_model
                     EMBEDDING_CTX_LENGTH EMBEDDING_ENCODING) ;;
   let '(content_vectors, content_text) := ct_ in
   IO.print ("Generated content embeddings for " ++ file_name)%string ;;
   category <- categorize_text (String.concat " " content_text) categories ;;
   IO.print ("Categorized " ++ file_name ++ " as "
             ++ str_option category)%string ;;
   for_io (append_row file_name idx title_vectors title_text
             content_vectors content_text category)
          (enumerate content_vectors) [])%io.

(** ** The thread pool *)

(** A future that is done: the index it was submitted with and what
    [future.result()] does, return the rows or re-raise. *)
Definition future : Type := nat * (exn + list row).

(** [executor.submit(process_file, file_path, idx, categories,
    embeddings_model)] for every [idx, file_path] of [enumerate(files)].
    The lines a worker prints are not part of its future. *)
Definition submit_all (files : list string) : list future :=
  map (fun '(idx, file_path) =>
         (idx, snd (process_file file_path idx categories embeddings_model)))
      (enumerate files).

(** The body of [for future in as_completed(futures)]; the state is the
    list [data] and the lines the main thread printed. *)
Definition collect_one (st : list row * list string) (f : future)
  : list row * list string :=
  let '(data, out) := st in
  match snd f with
  | inr result => (data ++ result, out)
  | inl e => (data, out ++ [("Error processing file: " ++ str_exn e)%string])
  end.

(** The collection loop, run over the futures in the order in which
    [as_completed] hands them out. *)
Definition collect (completed : list future) : list row * list string :=
  fold_left collect_one completed ([], []).

End Pipeline.

(** ** Derived notions used in the statements *)

Section Outcomes.

Variable get_encoding : string -> exn + Encoding.

(** The outcome of one call of the splitter followed by one full
    iteration, as a function of the arguments. *)
Definition split_outcome (text : string) (n : Z) (name : string)
  : exn + list (list token) :=
  match get_encoding name with
  | inl e => inl e
  | inr enc =>
      if (n <? 1)%Z then inl (ValueError "n must be at least one")
      else if (sys_maxsize <? n)%Z then inl islice_error
      else inr (groups (Z.to_nat n) (encode enc text))
  end.

(** The frames a generator created with a valid length passes through:
    none of them makes [next] raise. *)
Definition frame_after (k : nat) (g : chunked_frame) : chunked_frame :=
  Nat.iter k (fun g => snd (chunked_next get_encoding g)) g.

Definition never_raises (g : chunked_frame) : Prop :=
  forall k e, fst (chunked_next get_encoding (frame_after k g)) <> Raise e.

Inductive settled : chunked_frame -> Prop :=
| settled_suspended it n : settled (ChunkedDelegating (BatchedSuspended it n))
| settled_finished : settled ChunkedFinished.

(** The same frames with a length [islice] accepts. *)
Inductive settled_in_range : chunked_frame -> Prop :=
| in_range_suspended it n :
    (0 <= n <= sys_maxsize)%Z ->
    settled_in_range (ChunkedDelegating (BatchedSuspended it n))
| in_range_finished : settled_in_range ChunkedFinished.

(** No step of the iteration raises the error of the test [n < 1] of
    [batched]. *)
Definition guard_never_fires (g : chunked_frame) : Prop :=
  forall k,
    fst (chunked_next get_encoding (frame_after k g))
    <> Raise (ValueError "n must be at least one").

(** Iterating the frame an exhausted iteration leaves behind yields what
    the first iteration yielded. *)
Definition restartable (g : chunked_frame) : Prop :=
  fst (list_of get_encoding (snd (list_of get_encoding g)))
  = fst (list_of get_encoding g).

End Outcomes.

(** ** Generator objects in a store *)

(** Every call of [chunked_tokens] makes a new generator object, and
    iterating an object changes that object.  The store holds the frames of
    the objects made so far; a reference is a position in it. *)
Definition store : Type := list chunked_frame.

Definition frame_of (st : store) (r : nat) : chunked_frame :=
  nth r st ChunkedFinished.

Fixpoint store_set (st : store) (r : nat) (g : chunked_frame) : store :=
  match st, r with
  | [], _ => []
  | _ :: st', O => g :: st'
  | g0 :: st', S r' => g0 :: store_set st' r' g
  end.

(** [r = chunked_tokens(text, chunk_length, encoding_name)] *)
Definition new_chunked_tokens (st : store) (text : string) (chunk_length : Z)
    (encoding_name : string) : store * nat :=
  (st ++ [chunked_tokens text chunk_length encoding_name], List.length st).

Section Store.

Variable get_encoding : string -> exn + Encoding.

(** Up to [k] calls of [next] on a frame, stopped by the first signal that
    is not a chunk: the chunks obtained and the frame left. *)
Fixpoint take_chunks (k : nat) (g : chunked_frame)
  : list (list token) * chunked_frame :=
  match k with
  | O => ([], g)
  | S k' =>
      match chunked_next get_encoding g with
      | (Yield chunk, g') =>
          let '(chunks, g'') := take_chunks k' g' in (chunk :: chunks, g'')
      | (_, g') => ([], g')
      end
  end.

(** The same on the object [r] of the store. *)
Definition store_take (k : nat) (st : store) (r : nat)
  : list (list token) * store :=
  (fst (take_chunks k (frame_of st r)),
   store_set st r (snd (take_chunks k (frame_of st r)))).

(** [list(r)] *)
Definition store_list (st : store) (r : nat)
  : (exn + list (list token)) * store :=
  (fst (list_of get_encoding (frame_of st r)),
   store_set st r (snd (list_of get_encoding (frame_of st r)))).

(** Two separate calls of the splitter with the same arguments.  The
    first object is made in the store [st] and [k] chunks are taken from
    it; then the second object is made and iterated to its end; then the
    rest of the first is iterated.  The result is the two references, the
    chunks taken from the first object, the outcome of the second, and the
    outcome of the rest of the first. *)
Definition two_calls (st : store) (k : nat) (text : string)
    (chunk_length : Z) (encoding_name : string)
  : nat * nat * list (list token)
    * (exn + list (list token)) * (exn + list (list token)) :=
  let '(st1, r1) := new_chunked_tokens st text chunk_length encoding_name in
  let '(taken, st2) := store_take k st1 r1 in
  let '(st3, r2) := new_chunked_tokens st2 text chunk_length encoding_name in
  let '(second, st4) := store_list st3 r2 in
  let '(rest, _) := store_list st4 r1 in
  (r1, r2, taken, second, rest).

End Store.

(** The vector the service answers for a chunk. *)
Definition embeds (env : Env) (model : string) (c : list token) (v : vector)
  : Prop :=
  generate_embeddings env (InputTokens c) model = inr v.

(** ** The weighted average of the specification *)

(** The notebook has no code for combining chunk vectors.  The following
    definitions follow the words of the specification of the combination
    step ([weight_i = chunk_i.token_count / total_tokens],
    [result_j = sum over i of weight_i * vector_i[j]]) and serve only to
    compare it with what [len_safe_get_embedding] returns. *)
Definition spec_total_tokens (chunks : list (list token)) : nat :=
  fold_right (fun c n => List.length c + n) 0 chunks.

Definition spec_weight (chunks : list (list token)) (c : list token) : Q :=
  (inject_Z (Z.of_nat (List.length c))
   / inject_Z (Z.of_nat (spec_total_tokens chunks)))%Q.

Definition spec_component (chunks : list (list token)) (vs : list vector)
    (j : nat) : Q :=
  fold_right Qplus 0%Q
    (map (fun '(c, v) => (spec_weight chunks c * nth j v 0)%Q)
         (combine chunks vs)).

Definition spec_weighted_average (chunks : list (list token))
    (vs : list vector) : vector :=
  map (spec_component chunks vs) (seq 0 (List.length (hd [] vs))).

(** Vectors are compared component by component as rationals. *)
Definition vector_eq (u v : vector) : Prop := Forall2 Qeq u v.

(** The combination step as specified, read on the value
    [len_safe_get_embedding] returns: the embeddings returned are one single
    vector, the weighted average of the vectors of the chunks. *)
Definition returns_weighted_average (env : Env) (text model : string)
    (max_tokens : Z) (encoding_name : string) : Prop :=
  exists chunks vs w texts,
    fst (list_of (tiktoken_get_encoding env)
           (chunked_tokens text max_tokens encoding_name)) = inr chunks
    /\ Forall2 (embeds env model) chunks vs
    /\ vector_eq w (spec_weighted_average chunks vs)
    /\ len_safe_get_embedding env text model max_tokens encoding_name
       = inr ([w], texts).

(** ** Notions used in the statements about [process_file] *)

(** The text [process_file] reads for a document: the content of a [.txt]
    file, or the extracted text of a [.pdf] file. *)
Definition document_text (env : Env) (file_path : string) (t : string)
  : Prop :=
  let file_name := basename env file_path in
  (endswith file_name ".txt" = true /\ read_text env file_path = inr t)
  \/ (endswith file_name ".txt" = false
      /\ endswith file_name ".pdf" = true
      /\ extract_text_from_pdf env file_path = inr t).

(** [r] is the row built for content chunk [i] of document [idx]. *)
Definition row_of_chunk (env : Env) (idx : nat)
    (title_vectors : list vector) (title_text : list string)
    (content_vectors : list vector) (content_text : list string)
    (cat : option string) (i : nat) (r : row) : Prop :=
  id r = (str_nat idx ++ "_" ++ str_nat i)%string
  /\ vector_id r = (str_nat idx ++ "_" ++ str_nat i)%string
  /\ index title_text 0 = inr (title r)
  /\ index content_text i = inr (text r)
  /\ (exists tv0, index title_vectors 0 = inr tv0
                  /\ title_vector r = json_dumps env tv0)
  /\ (exists cv, index content_vectors i = inr cv
                 /\ content_vector r = json_dumps env cv)
  /\ category r = cat.

(** The rows of document [idx] are complete and in chunk order: one row per
    content chunk, the [i]-th row carrying the text and the vector of the
    [i]-th chunk of the document's text. *)
Definition chunk_ordered (env : Env) (file_path : string) (idx : nat)
    (model : string) (rows : list row) : Prop :=
  exists t content_vectors content_text,
    document_text env file_path t
    /\ len_safe_get_embedding env t model EMBEDDING_CTX_LENGTH
         EMBEDDING_ENCODING = inr (content_vectors, content_text)
    /\ List.length rows = List.length content_vectors
    /\ forall i r, nth_error rows i = Some r ->
         id r = (str_nat idx ++ "_" ++ str_nat i)%string
         /\ index content_text i = inr (text r)
         /\ exists cv, index content_vectors i = inr cv
                       /\ content_vector r = json_dumps env cv.

(** The request [categorize_text] sends for a text. *)
Definition categorize_messages (text : string) (cats : list string)
  : list message :=
  [ {| role := "system"; content := categorize_prompt cats |};
    {| role := "user"; content := text |} ].

(** The same world with another chat service. *)
Definition with_chat (env : Env)
    (chat : string -> list message -> exn + list (option string)) : Env := {|
  tiktoken_get_encoding := tiktoken_get_encoding env;
  openai_client := {|
    embeddings_create := embeddings_create (openai_client env);
    chat_completions_create := chat |};
  basename := basename env;
  read_text := read_text env;
  PdfReader_pages := PdfReader_pages env;
  json_dumps := json_dumps env
|}.

Definition with_category (cat : option string) (r : row) : row := {|
  id := id r;
  vector_id := vector_id r;
  title := title r;
  text := text r;
  title_vector := title_vector r;
  content_vector := content_vector r;
  category := cat
|}.

(** Two outcomes of [process_file] that differ at most in the category
    column, the first one carrying [None] there. *)
Definition same_but_uncategorized (o o' : exn + list row) : Prop :=
  match o, o' with
  | inr rows, inr rows' => rows = map (with_category None) rows'
  | inl e, inl e' => e = e'
  | _, _ => False
  end.

(** What a finished future contributes to [data] and to the lines the main
    thread prints. *)
Definition rows_of (f : future) : list row :=
  match snd f with
  | inr result => result
  | inl _ => []
  end.

Definition report_of (f : future) : list string :=
  match snd f with
  | inr _ => []
  | inl e => [("Error processing file: " ++ str_exn e)%string]
  end.

(** ** A small concrete world *)

(** A tokenizer with one token per character, an embedding service that
    answers a chunk with the sum and the number of its tokens, and a
    three-file folder.  Used to run the model on concrete inputs. *)
Module Demo.

Definition byte_encoding : Encoding := {|
  encode := fun s => map (fun c => Z.of_nat (nat_of_ascii c))
                         (list_ascii_of_string s);
  decode := fun l => string_of_list_ascii
                       (map (fun t => ascii_of_nat (Z.to_nat t)) l)
|}.

(** Every character becomes 3000 equal tokens: short names then span
    several chunks of [EMBEDDING_CTX_LENGTH] tokens. *)
Definition wide_encoding : Encoding := {|
  encode := fun s => flat_map (fun c => repeat (Z.of_nat (nat_of_ascii c)) 3000)
                              (list_ascii_of_string s);
  decode := fun l => string_of_list_ascii
                       (map (fun t => ascii_of_nat (Z.to_nat t)) l)
|}.

Definition get_encoding_with (enc : Encoding) (name : string)
  : exn + Encoding :=
  if String.eqb name "cl100k_base" then inr enc
  else inl (ValueError ("Unknown encoding " ++ name)%string).

Definition get_encoding : string -> exn + Encoding :=
  get_encoding_with byte_encoding.

Definition embed (model : string) (input : embed_input)
  : exn + list vector :=
  match input with
  | InputTokens l =>
      inr [[inject_Z (fold_right Z.add 0%Z l);
            inject_Z (Z.of_nat (List.length l))]]
  | InputText s => inr [[inject_Z (Z.of_nat (String.length s)); 0%Q]]
  end.

Definition chat_ok (model : string) (messages : list message)
  : exn + list (option string) :=
  inr [Some "tools"].

Definition chat_down (model : string) (messages : list message)
  : exn + list (option string) :=
  inl (APIError "Connection error.").

(** Fails exactly on the document whose text is ["two"]. *)
Definition chat_flaky (model : string) (messages : list message)
  : exn + list (option string) :=
  if existsb (fun m => String.eqb (content m) "two") messages
  then inl (APIError "Connection error.")
  else inr [Some "tools"].

Fixpoint has_slash (s : string) : bool :=
  match s with
  | EmptyString => false
  | String c s' => Ascii.eqb c "/" || has_slash s'
  end.

Fixpoint path_basename (p : string) : string :=
  match p with
  | EmptyString => EmptyString
  | String c p' =>
      if has_slash p' then path_basename p'
      else if Ascii.eqb c "/" then p'
      else p
  end.

Definition folder : list (string * string) :=
  [("docs/a.txt", "one"); ("docs/b.txt", "two"); ("docs/c.txt", "three")].

Definition read (path : string) : exn + string :=
  match find (fun entry => String.eqb (fst entry) path) folder with
  | Some entry => inr (snd entry)
  | None => inl (OSError ("No such file or directory: " ++ path)%string)
  end.

Definition pages (path : string) : exn + list (exn + string) :=
  inr [inr "page one"; inr " page two"].

Definition dumps (v : vector) : string :=
  ("[" ++ String.concat ", "
            (map (fun q => (NilZero.string_of_int (Z.to_int (Qnum q)) ++ "/"
                            ++ NilZero.string_of_uint (Pos.to_uint (Qden q)))%string)
                 v)
       ++ "]")%string.

Definition world (get_enc : string -> exn + Encoding)
    (chat : string -> list message -> exn + list (option string)) : Env := {|
  tiktoken_get_encoding := get_enc;
  openai_client := {| embeddings_create := embed;
                      chat_completions_create := chat |};
  basename := path_basename;
  read_text := read;
  PdfReader_pages := pages;
  json_dumps := dumps
|}.

Definition env : Env := world get_encoding chat_ok.
Definition env_down : Env := world get_encoding chat_down.
Definition env_flaky : Env := world get_encoding chat_flaky.
Definition env_wide : Env := world (get_encoding_with wide_encoding) chat_ok.

Definition files : list string := map fst folder.

(** The same folder listing with a file that cannot be read. *)
Definition files_one_missing : list string :=
  ["docs/a.txt"; "docs/missing.txt"; "docs/c.txt"].

End Demo.

(** ** Loading the rows into the table *)

(** [[f(x) for x in l]] where [f] may raise *)
Fixpoint mapM {A B : Type} (f : A -> exn + B) (l : list A) : exn + list B :=
  match l with
  | [] => inr []
  | a :: l' =>
      (b <- f a ;; bs <- mapM f l' ;; inr (b :: bs))%exc
  end.

(** [s[1:-1]] *)
Definition strip_ends (s : string) : string :=
  substring 1 (String.length s - 2) s.

(** [s.split(',')] *)
Fixpoint split_comma (s : string) : list string :=
  match s with
  | EmptyString => [EmptyString]
  | String c s' =>
      if Ascii.eqb c ","
      then EmptyString :: split_comma s'
      else match split_comma s' with
           | piece :: pieces => String c piece :: pieces
           | [] => [String c EmptyString]
           end
  end.

(** [preprocess_content_vector]: the row read back from the CSV file has a
    string in its [content_vector] column; the function replaces it by the
    list of the numbers [float] reads in it.  The result is the row, whose
    other columns are untouched, paired with the new content of the
    column.  [float] is Python's conversion of a string to a number. *)
Definition preprocess_content_vector (float : string -> exn + Q) (r : row)
  : exn + (row * vector) :=
  (v <- mapM float (split_comma (strip_ends (content_vector r))) ;;
   inr (r, v))%exc.

Fixpoint has_comma (s : string) : bool :=
  match s with
  | EmptyString => false
  | String c s' => Ascii.eqb c "," || has_comma s'
  end.

Fixpoint count_commas (s : string) : nat :=
  match s with
  | EmptyString => 0
  | String c s' => (if Ascii.eqb c "," then 1 else 0) + count_commas s'
  end.

(** The text [json.dumps] writes for a list whose elements are written by
    [repr]. *)
Definition dumps_list (repr : Q -> string) (v : vector) : string :=
  ("[" ++ String.concat ", " (map repr v) ++ "]")%string.

(** The [id] of the row of chunk [i] of document [idx]. *)
Definition row_key (p : nat * nat) : string :=
  (str_nat (fst p) ++ "_" ++ str_nat (snd p))%string.

(** ** More of the concrete world *)

Module Faults.

(** An embedding service that fails on the chunks that start with the
    token of the letter D. *)
Definition embed_flaky (model : string) (input : embed_input)
  : exn + list vector :=
  match input with
  | InputTokens (68%Z :: _) => inl (APIError "Rate limit reached.")
  | _ => Demo.embed model input
  end.

Definition env_embed_flaky : Env := {|
  tiktoken_get_encoding := Demo.get_encoding;
  openai_client := {| embeddings_create := embed_flaky;
                      chat_completions_create := Demo.chat_ok |};
  basename := Demo.path_basename;
  read_text := Demo.read;
  PdfReader_pages := Demo.pages;
  json_dumps := Demo.dumps
|}.

(** A PDF reader whose second page cannot be extracted, and one that finds
    no page. *)
Definition env_with_pages (pages : exn + list (exn + string)) : Env := {|
  tiktoken_get_encoding := Demo.get_encoding;
  openai_client := {| embeddings_create := Demo.embed;
                      chat_completions_create := Demo.chat_ok |};
  basename := Demo.path_basename;
  read_text := Demo.read;
  PdfReader_pages := fun _ => pages;
  json_dumps := Demo.dumps
|}.

(** A tokenizer that only knows the digits: every other character gives no
    token.  With it a file name without digits has no chunk. *)
Definition digits_encoding : Encoding := {|
  encode := fun s =>
    map (fun c => Z.of_nat (nat_of_ascii c))
        (filter (fun c => (48 <=? nat_of_ascii c) && (nat_of_ascii c <=? 57))
                (list_ascii_of_string s));
  decode := decode Demo.byte_encoding
|}.

Definition env_digits : Env := {|
  tiktoken_get_encoding := Demo.get_encoding_with digits_encoding;
  openai_client := {| embeddings_create := Demo.embed;
                      chat_completions_create := Demo.chat_ok |};
  basename := Demo.path_basename;
  read_text := Demo.read;
  PdfReader_pages := fun _ => inr [inr "year 2024"];
  json_dumps := Demo.dumps
|}.

(** How [Demo.dumps] writes a number. *)
Definition repr (q : Q) : string :=
  (NilZero.string_of_int (Z.to_int (Qnum q)) ++ "/"
   ++ NilZero.string_of_uint (Pos.to_uint (Qden q)))%string.

Fixpoint split_slash (s : string) : string * option string :=
  match s with
  | EmptyString => (EmptyString, None)
  | String c s' =>
      if Ascii.eqb c "/" then (EmptyString, Some s')
      else let '(a, b) := split_slash s' in (String c a, b)
  end.

Definition lstrip (s : string) : string :=
  match s with
  | String " " s' => s'
  | _ => s
  end.

(** Reads back what [repr] writes, after an optional blank. *)
Definition float (s : string) : exn + Q :=
  let bad := inl (ValueError ("could not convert string to float: " ++ s)) in
  match split_slash (lstrip s) with
  | (a, Some b) =>
      match NilZero.int_of_string a, NilZero.uint_of_string b with
      | Some n, Some d =>
          match Pos.of_uint d with
          | Npos p => inr (Qmake (Z.of_int n) p)
          | N0 => bad
          end
      | _, _ => bad
      end
  | (_, None) => bad
  end.

End Faults.

(** * Properties *)

(** ** The partition [groups] *)

Lemma list_length_ind {A : Type} (P : list A -> Prop) :
  (forall l, (forall l', List.length l' < List.length l -> P l') -> P l) ->
  forall l, P l.
Proof.
  intros step l.
  remember (List.length l) as n eqn:Hn.
  revert l Hn.
  induction n as [n IH] using (well_founded_induction lt_wf).
  intros l ->. apply step. intros l' Hlt. exact (IH _ Hlt l' eq_refl).
Qed.

Lemma skipn_shorter (k : nat) (l : list token) :
  1 <= k -> l <> [] -> List.length (skipn k l) < List.length l.
Proof.
  intros Hk Hl. rewrite length_skipn.
  destruct l as [|a l]; [congruence|]. cbn [List.length]. lia.
Qed.

Lemma groups_fuel_stable (k : nat) :
  1 <= k ->
  forall fuel1 fuel2 l,
    List.length l <= fuel1 -> List.length l <= fuel2 ->
    groups_fuel fuel1 k l = groups_fuel fuel2 k l.
Proof.
  intros Hk fuel1.
  induction fuel1 as [|fuel1 IH]; intros fuel2 l H1 H2.
  - destruct l; [now destruct fuel2 | simpl in H1; lia].
  - destruct l as [|a l]; [now destruct fuel2|].
    destruct fuel2 as [|fuel2]; [simpl in H2; lia|].
    pose proof (skipn_shorter k (a :: l) Hk ltac:(congruence)) as Hs.
    cbn [List.length] in H1, H2, Hs.
    cbn [groups_fuel]. f_equal. apply IH; lia.
Qed.

Lemma groups_fuel_enough (k : nat) :
  1 <= k ->
  forall fuel l, List.length l <= fuel ->
    groups_fuel fuel k l = groups k l.
Proof.
  intros Hk fuel l Hlen. unfold groups.
  apply groups_fuel_stable; auto.
Qed.

Lemma groups_nil (k : nat) : groups k [] = [].
Proof. reflexivity. Qed.

Lemma groups_step (k : nat) (l : list token) :
  1 <= k -> l <> [] ->
  groups k l = firstn k l :: groups k (skipn k l).
Proof.
  intros Hk Hl.
  destruct l as [|a l]; [congruence|].
  pose proof (skipn_shorter k (a :: l) Hk Hl) as Hs.
  cbn [List.length] in Hs.
  unfold groups at 1. cbn [List.length groups_fuel].
  f_equal. apply groups_fuel_enough; [exact Hk | lia].
Qed.

Lemma concat_groups (k : nat) (l : list token) :
  1 <= k -> concat (groups k l) = l.
Proof.
  intros Hk. induction l as [l IH] using list_length_ind.
  destruct l as [|a l]; [reflexivity|].
  rewrite groups_step by (auto; congruence).
  simpl concat. rewrite IH.
  - apply firstn_skipn.
  - apply skipn_shorter; [exact Hk | congruence].
Qed.

(** Every group holds between one and [k] elements. *)
Lemma groups_bounds (k : nat) (l : list token) :
  1 <= k ->
  Forall (fun c => 1 <= List.length c <= k) (groups k l).
Proof.
  intros Hk. induction l as [l IH] using list_length_ind.
  destruct l as [|a l]; [constructor|].
  rewrite groups_step by (auto; congruence).
  constructor.
  - rewrite length_firstn. simpl. lia.
  - apply IH. apply skipn_shorter; [exact Hk | congruence].
Qed.

(** Every group that has a successor is full. *)
Lemma groups_full (k : nat) (l : list token) :
  1 <= k ->
  forall i c, nth_error (groups k l) i = Some c ->
    S i < List.length (groups k l) -> List.length c = k.
Proof.
  intros Hk. induction l as [l IH] using list_length_ind.
  intros i c Hi Hlast.
  destruct l as [|a l]; [destruct i; discriminate|].
  rewrite groups_step in Hi, Hlast by (auto; congruence).
  destruct i as [|i].
  - injection Hi as <-. simpl in Hlast.
    destruct (skipn k (a :: l)) as [|b r] eqn:Hskip.
    { rewrite groups_nil in Hlast. simpl in Hlast. lia. }
    rewrite length_firstn.
    assert (Hlen : List.length (skipn k (a :: l)) >= 1)
      by (rewrite Hskip; simpl; lia).
    rewrite length_skipn in Hlen. lia.
  - simpl in Hi, Hlast.
    apply (IH (skipn k (a :: l))) with (i := i).
    + apply skipn_shorter; [exact Hk | congruence].
    + exact Hi.
    + lia.
Qed.

Lemma groups_one (l : list token) : groups 1 l = map (fun t => [t]) l.
Proof.
  induction l as [|a l IH]; [reflexivity|].
  rewrite groups_step by (auto; congruence).
  simpl. now rewrite IH.
Qed.

Lemma groups_empty_iff (k : nat) (l : list token) :
  1 <= k -> (groups k l = [] <-> l = []).
Proof.
  intros Hk. split.
  - destruct l as [|a l]; [reflexivity|].
    rewrite groups_step by (auto; congruence). discriminate.
  - intros ->. reflexivity.
Qed.

(** Every group but the last one is full. *)
Lemma groups_removelast_full (k : nat) (l : list token) :
  1 <= k ->
  Forall (fun c => List.length c = k) (removelast (groups k l)).
Proof.
  intros Hk. induction l as [l IH] using list_length_ind.
  destruct l as [|a l]; [constructor|].
  rewrite groups_step by (auto; congruence).
  assert (Hs : List.length (skipn k (a :: l)) < List.length (a :: l))
    by (apply skipn_shorter; [exact Hk | congruence]).
  specialize (IH _ Hs).
  destruct (groups k (skipn k (a :: l))) as [|c cs] eqn:Hg.
  - constructor.
  - change (Forall (fun c => List.length c = k)
              (firstn k (a :: l) :: removelast (c :: cs))).
    constructor; [|exact IH].
    assert (Hne : skipn k (a :: l) <> []).
    { intros Hnil. rewrite Hnil, groups_nil in Hg. discriminate. }
    rewrite length_firstn.
    assert (List.length (skipn k (a :: l)) <> 0).
    { destruct (skipn k (a :: l)); [congruence | discriminate]. }
    rewrite length_skipn in *. lia.
Qed.

(** ** The [for] loop over a [chunked_tokens] generator *)

Section Loops.

Variable get_encoding : string -> exn + Encoding.

Lemma islice_in_range (it : list token) (n : Z) :
  (0 <= n <= sys_maxsize)%Z ->
  islice it n = inr (firstn (Z.to_nat n) it, skipn (Z.to_nat n) it).
Proof.
  intros [H0 Hmax]. unfold islice.
  apply Z.ltb_ge in H0. apply Z.ltb_ge in Hmax. now rewrite H0, Hmax.
Qed.

Lemma islice_too_long (it : list token) (n : Z) :
  (sys_maxsize < n)%Z -> islice it n = inl islice_error.
Proof.
  intros Hmax. unfold islice. apply Z.ltb_lt in Hmax.
  now rewrite Hmax, orb_true_r.
Qed.

Lemma islice_inv (it : list token) (n : Z) batch it' :
  islice it n = inr (batch, it') ->
  (0 <= n <= sys_maxsize)%Z
  /\ batch = firstn (Z.to_nat n) it /\ it' = skipn (Z.to_nat n) it.
Proof.
  unfold islice.
  destruct (n <? 0)%Z eqn:H0; [discriminate|].
  destruct (sys_maxsize <? n)%Z eqn:Hmax; [discriminate|].
  cbn [orb]. intros H. injection H as <- <-.
  apply Z.ltb_ge in H0. apply Z.ltb_ge in Hmax. auto.
Qed.

Lemma batched_loop_in_range (it : list token) (n : Z) :
  (0 <= n <= sys_maxsize)%Z ->
  batched_loop it n
  = match firstn (Z.to_nat n) it with
    | [] => (StopIteration, BatchedFinished)
    | _ :: _ =>
        (Yield (firstn (Z.to_nat n) it),
         BatchedSuspended (skipn (Z.to_nat n) it) n)
    end.
Proof.
  intros Hn. unfold batched_loop. now rewrite islice_in_range.
Qed.

Lemma batched_loop_yield it n y g' :
  batched_loop it n = (Yield y, g') ->
  it <> [] /\ (1 <= Z.to_nat n) /\ y = firstn (Z.to_nat n) it
  /\ g' = BatchedSuspended (skipn (Z.to_nat n) it) n.
Proof.
  unfold batched_loop.
  destruct (islice it n) as [e|[batch it']] eqn:Hi; [discriminate|].
  apply islice_inv in Hi as (_ & -> & ->).
  destruct (firstn (Z.to_nat n) it) as [|a b] eqn:Hf; [discriminate|].
  intros H. injection H as <- <-.
  destruct it as [|t it]; [now rewrite firstn_nil in Hf|].
  destruct (Z.to_nat n) as [|k]; [discriminate|].
  repeat split; [congruence | lia].
Qed.

Lemma batched_next_budget g y g' :
  batched_next g = (Yield y, g') -> batched_budget g' < batched_budget g.
Proof.
  destruct g as [l n|l n|]; simpl; [destruct (n <? 1)%Z| |];
    try discriminate; intros H;
    apply batched_loop_yield in H as (Hne & Hk & _ & ->);
    simpl; apply -> Nat.succ_lt_mono; now apply skipn_shorter.
Qed.

Lemma yield_from_budget inner y g' :
  yield_from inner = (Yield y, g') ->
  exists inner', g' = ChunkedDelegating inner'
                 /\ batched_budget inner' < batched_budget inner.
Proof.
  unfold yield_from.
  destruct (batched_next inner) as [[b| |e] gi] eqn:Hn; try discriminate.
  intros H. injection H as <- <-.
  exists gi. split; [reflexivity|]. eapply batched_next_budget; eauto.
Qed.

Lemma chunked_next_budget g y g' :
  chunked_next get_encoding g = (Yield y, g')
  -> chunked_budget get_encoding g' < chunked_budget get_encoding g.
Proof.
  destruct g as [text n name|inner|]; simpl.
  - destruct (get_encoding name) as [e|enc]; [discriminate|].
    intros H. apply yield_from_budget in H as (inner' & -> & Hlt).
    simpl in *. lia.
  - intros H. apply yield_from_budget in H as (inner' & -> & Hlt).
    simpl. lia.
  - discriminate.
Qed.

Lemma chunked_budget_pos g : 1 <= chunked_budget get_encoding g.
Proof.
  destruct g as [text n name|inner|]; simpl; try lia.
  destruct (get_encoding name); lia.
Qed.

Lemma for_fuel_stable {S : Type} (body : S -> list token -> exn + S) :
  forall fuel1 fuel2 g s,
    chunked_budget get_encoding g <= fuel1 ->
    chunked_budget get_encoding g <= fuel2 ->
    for_fuel get_encoding body fuel1 g s
    = for_fuel get_encoding body fuel2 g s.
Proof.
  induction fuel1 as [|fuel1 IH]; intros fuel2 g s H1 H2.
  - pose proof (chunked_budget_pos g). lia.
  - destruct fuel2 as [|fuel2]; [pose proof (chunked_budget_pos g); lia|].
    simpl.
    destruct (chunked_next get_encoding g) as [[y| |e] g'] eqn:Hn;
      try reflexivity.
    destruct (body s y) as [e|s']; [reflexivity|].
    pose proof (chunked_next_budget _ _ _ Hn) as Hlt.
    apply IH; lia.
Qed.

(** The loop equation: the fuel of [for_chunks] never runs out. *)
Lemma for_chunks_eq {S : Type} (body : S -> list token -> exn + S) g s :
  for_chunks get_encoding body g s =
  match chunked_next get_encoding g with
  | (Yield y, g') =>
      match body s y with
      | inl e => (inl e, g')
      | inr s' => for_chunks get_encoding body g' s'
      end
  | (StopIteration, g') => (inr s, g')
  | (Raise e, g') => (inl e, g')
  end.
Proof.
  unfold for_chunks.
  pose proof (chunked_budget_pos g) as Hpos.
  destruct (chunked_budget get_encoding g) as [|fuel] eqn:Hb;
    [lia|].
  simpl.
  destruct (chunked_next get_encoding g) as [[y| |e] g'] eqn:Hn;
    try reflexivity.
  destruct (body s y) as [e|s']; [reflexivity|].
  pose proof (chunked_next_budget _ _ _ Hn) as Hlt.
  apply for_fuel_stable; lia.
Qed.

End Loops.

(** ** What iterating [chunked_tokens] does *)

Section Iteration.

Variable get_encoding : string -> exn + Encoding.

Lemma for_chunks_finished {S : Type} (body : S -> list token -> exn + S) s :
  for_chunks get_encoding body ChunkedFinished s = (inr s, ChunkedFinished).
Proof. reflexivity. Qed.

Lemma for_chunks_unknown_encoding {S : Type}
    (body : S -> list token -> exn + S) text n name e s :
  get_encoding name = inl e ->
  for_chunks get_encoding body (chunked_tokens text n name) s
  = (inl e, ChunkedFinished).
Proof.
  intros He. rewrite for_chunks_eq. simpl. now rewrite He.
Qed.

Lemma for_chunks_bad_length {S : Type}
    (body : S -> list token -> exn + S) text n name enc s :
  get_encoding name = inr enc -> (n < 1)%Z ->
  for_chunks get_encoding body (chunked_tokens text n name) s
  = (inl (ValueError "n must be at least one"), ChunkedFinished).
Proof.
  intros He Hn. rewrite for_chunks_eq. simpl. rewrite He.
  unfold yield_from, batched. simpl.
  apply Z.ltb_lt in Hn. now rewrite Hn.
Qed.

(** Once started with a valid length, the generator behaves as the
    suspended one over the whole token list. *)
Lemma for_chunks_start {S : Type}
    (body : S -> list token -> exn + S) text n name enc s :
  get_encoding name = inr enc -> (1 <= n)%Z ->
  for_chunks get_encoding body (chunked_tokens text n name) s
  = for_chunks get_encoding body
      (ChunkedDelegating (BatchedSuspended (encode enc text) n)) s.
Proof.
  intros He Hn.
  rewrite (for_chunks_eq _ _ (chunked_tokens text n name)).
  rewrite (for_chunks_eq _ _ (ChunkedDelegating _)).
  simpl. rewrite He. unfold yield_from, batched. simpl.
  apply Z.ltb_ge in Hn. now rewrite Hn.
Qed.

(** A length above [sys.maxsize] passes the test of [batched] and is
    refused by [islice] at the first turn of the loop. *)
Lemma for_chunks_too_long {S : Type}
    (body : S -> list token -> exn + S) text n name enc s :
  get_encoding name = inr enc -> (sys_maxsize < n)%Z ->
  for_chunks get_encoding body (chunked_tokens text n name) s
  = (inl islice_error, ChunkedFinished).
Proof.
  intros He Hn. rewrite for_chunks_eq. simpl. rewrite He.
  unfold yield_from, batched. simpl.
  assert (H1 : (n <? 1)%Z = false)
    by (apply Z.ltb_ge; unfold sys_maxsize in Hn; lia).
  rewrite H1. unfold batched_loop. now rewrite islice_too_long.
Qed.

Lemma for_chunks_suspended {S : Type}
    (body : S -> list token -> exn + S) n :
  (1 <= n <= sys_maxsize)%Z ->
  forall it s,
    let r := for_chunks get_encoding body
               (ChunkedDelegating (BatchedSuspended it n)) s in
    fst r = foldM body (groups (Z.to_nat n) it) s
    /\ (forall s', foldM body (groups (Z.to_nat n) it) s = inr s' ->
        snd r = ChunkedFinished).
Proof.
  intros Hn it.
  assert (Hk : 1 <= Z.to_nat n) by lia.
  assert (Hr : (0 <= n <= sys_maxsize)%Z) by lia.
  induction it as [it IH] using list_length_ind.
  intros s. cbv zeta. rewrite for_chunks_eq.
  destruct it as [|a it].
  - simpl. unfold yield_from. simpl. rewrite batched_loop_in_range by exact Hr.
    rewrite firstn_nil. simpl. split; [reflexivity | auto].
  - rewrite groups_step by (auto; congruence).
    simpl chunked_next. unfold yield_from.
    simpl batched_next. rewrite batched_loop_in_range by exact Hr.
    destruct (firstn (Z.to_nat n) (a :: it)) as [|b bs] eqn:Hf.
    { destruct (Z.to_nat n); [lia | discriminate]. }
    cbn [foldM].
    destruct (body s (b :: bs)) as [e|s1]; [split; [reflexivity|discriminate]|].
    apply IH. apply skipn_shorter; [exact Hk | congruence].
Qed.

Lemma foldM_snoc (l : list (list token)) :
  forall acc,
    foldM (fun acc chunk => inr (acc ++ [chunk])) l acc
    = (inr (acc ++ l) : exn + list (list token)).
Proof.
  induction l as [|c l IH]; intros acc; simpl.
  - now rewrite app_nil_r.
  - rewrite IH. now rewrite <- app_assoc.
Qed.

Lemma list_of_chunked_tokens text n name :
  list_of get_encoding (chunked_tokens text n name)
  = (split_outcome get_encoding text n name, ChunkedFinished).
Proof.
  unfold list_of, split_outcome.
  destruct (get_encoding name) as [e|enc] eqn:He.
  - now apply for_chunks_unknown_encoding.
  - destruct (n <? 1)%Z eqn:Hn.
    + apply Z.ltb_lt in Hn. eapply for_chunks_bad_length; eauto.
    + apply Z.ltb_ge in Hn.
      destruct (sys_maxsize <? n)%Z eqn:Hmax.
      * apply Z.ltb_lt in Hmax. eapply for_chunks_too_long; eauto.
      * apply Z.ltb_ge in Hmax.
        rewrite (for_chunks_start _ _ _ _ enc) by assumption.
        pose proof (for_chunks_suspended
                      (fun acc chunk => inr (acc ++ [chunk])) n
                      (conj Hn Hmax) (encode enc text) []) as [H1 H2].
        rewrite foldM_snoc in H1, H2. simpl in H1, H2.
        specialize (H2 _ eq_refl).
        destruct (for_chunks _ _ _ _) as [r g]. simpl in *. congruence.
Qed.

(** The loop of a consumer, in terms of the chunks an iteration yields. *)
Lemma for_chunks_chunked_tokens {S : Type}
    (body : S -> list token -> exn + S) text n name s :
  fst (for_chunks get_encoding body (chunked_tokens text n name) s)
  = match split_outcome get_encoding text n name with
    | inl e => inl e
    | inr chunks => foldM body chunks s
    end.
Proof.
  unfold split_outcome.
  destruct (get_encoding name) as [e|enc] eqn:He.
  - now rewrite (for_chunks_unknown_encoding _ _ _ _ e).
  - destruct (n <? 1)%Z eqn:Hn.
    + apply Z.ltb_lt in Hn.
      now rewrite (for_chunks_bad_length _ _ _ _ enc).
    + apply Z.ltb_ge in Hn.
      destruct (sys_maxsize <? n)%Z eqn:Hmax.
      * apply Z.ltb_lt in Hmax.
        now rewrite (for_chunks_too_long _ _ _ _ enc).
      * apply Z.ltb_ge in Hmax.
        rewrite (for_chunks_start _ _ _ _ enc) by assumption.
        apply for_chunks_suspended. split; assumption.
Qed.

Lemma split_outcome_in_range text n name enc :
  get_encoding name = inr enc ->
  (1 <= n <= sys_maxsize)%Z ->
  split_outcome get_encoding text n name
  = inr (groups (Z.to_nat n) (encode enc text)).
Proof.
  intros He [Hn Hmax]. unfold split_outcome. rewrite He.
  apply Z.ltb_ge in Hn. apply Z.ltb_ge in Hmax. now rewrite Hn, Hmax.
Qed.

(** Past the first step no frame raises the error of the test [n < 1]. *)
Lemma settled_next g :
  settled g ->
  settled (snd (chunked_next get_encoding g))
  /\ fst (chunked_next get_encoding g)
     <> Raise (ValueError "n must be at least one").
Proof.
  intros [it n|]; simpl.
  - unfold yield_from. simpl. unfold batched_loop.
    destruct (islice it n) as [e|[batch it']] eqn:Hi.
    + unfold islice in Hi.
      destruct ((n <? 0)%Z || (sys_maxsize <? n)%Z); [|discriminate].
      injection Hi as <-. simpl. split; [constructor | discriminate].
    + destruct batch; simpl; split; try constructor; discriminate.
  - split; [constructor | discriminate].
Qed.

Lemma start_next_guard text n name enc :
  get_encoding name = inr enc -> (1 <= n)%Z ->
  settled (snd (chunked_next get_encoding (chunked_tokens text n name)))
  /\ fst (chunked_next get_encoding (chunked_tokens text n name))
     <> Raise (ValueError "n must be at least one").
Proof.
  intros He Hn. simpl. rewrite He. unfold yield_from, batched. simpl.
  apply Z.ltb_ge in Hn. rewrite Hn.
  exact (settled_next (ChunkedDelegating
                         (BatchedSuspended (encode enc text) n))
           (settled_suspended _ _)).
Qed.

Lemma in_range_next g :
  settled_in_range g ->
  settled_in_range (snd (chunked_next get_encoding g))
  /\ forall e, fst (chunked_next get_encoding g) <> Raise e.
Proof.
  intros [it n Hn|]; simpl.
  - unfold yield_from. simpl. rewrite batched_loop_in_range by exact Hn.
    destruct (firstn (Z.to_nat n) it); simpl;
      split; try (constructor; assumption); discriminate.
  - split; [constructor | discriminate].
Qed.

Lemma start_next text n name enc :
  get_encoding name = inr enc -> (1 <= n <= sys_maxsize)%Z ->
  settled_in_range
    (snd (chunked_next get_encoding (chunked_tokens text n name)))
  /\ forall e,
      fst (chunked_next get_encoding (chunked_tokens text n name))
      <> Raise e.
Proof.
  intros He [Hn Hmax]. simpl. rewrite He. unfold yield_from, batched. simpl.
  apply Z.ltb_ge in Hn. rewrite Hn.
  apply (in_range_next (ChunkedDelegating
                          (BatchedSuspended (encode enc text) n))).
  constructor. apply Z.ltb_ge in Hn. lia.
Qed.

Lemma frame_after_succ k g :
  frame_after get_encoding (S k) g
  = frame_after get_encoding k (snd (chunked_next get_encoding g)).
Proof.
  unfold frame_after. now rewrite Nat.iter_succ_r.
Qed.

Lemma settled_never_raises g :
  settled_in_range g -> never_raises get_encoding g.
Proof.
  intros Hs k. revert g Hs.
  induction k as [|k IH]; intros g Hs e.
  - simpl. now apply in_range_next.
  - rewrite frame_after_succ. apply IH. now apply in_range_next.
Qed.

Lemma settled_guard_never_fires g :
  settled g -> guard_never_fires get_encoding g.
Proof.
  intros Hs k. revert g Hs.
  induction k as [|k IH]; intros g Hs.
  - simpl. now apply settled_next.
  - rewrite frame_after_succ. apply IH. now apply settled_next.
Qed.

End Iteration.

(** * The splitter *)

(** C2, as stated, fails: [max_tokens = 2^63] is at least 1, but it is
    above [sys.maxsize], and [islice] refuses it at the first step of the
    iteration: no chunk is produced and the tokens are not reproduced. *)
Lemma chunks_concat_counterexample :
  let g := chunked_tokens "ABCDEFG" 9223372036854775808 "cl100k_base" in
  (1 <= 9223372036854775808)%Z
  /\ list_of Demo.get_encoding g = (inl islice_error, ChunkedFinished)
  /\ ~ (exists chunks,
          fst (list_of Demo.get_encoding g) = inr chunks
          /\ concat chunks = encode Demo.byte_encoding "ABCDEFG").
Proof.
  cbv zeta. split; [lia|]. split; [vm_compute; reflexivity|].
  intros (chunks & H & _). vm_compute in H. discriminate.
Qed.

(** C2, amended: for every text and every [max_tokens] with
    [1 <= max_tokens <= sys.maxsize], one iteration of the splitter ends
    normally and the chunks it yields, concatenated in order, are exactly
    the token sequence of the text: nothing is dropped, duplicated or
    reordered. *)
Theorem chunks_concat_to_token_sequence
    (get_encoding : string -> exn + Encoding) (enc : Encoding)
    (text : string) (max_tokens : Z) (encoding_name : string) :
  get_encoding encoding_name = inr enc ->
  (1 <= max_tokens <= sys_maxsize)%Z ->
  exists chunks,
    fst (list_of get_encoding (chunked_tokens text max_tokens encoding_name))
    = inr chunks
    /\ concat chunks = encode enc text.
Proof.
  intros He HM.
  exists (groups (Z.to_nat max_tokens) (encode enc text)). split.
  - rewrite list_of_chunked_tokens. cbn [fst].
    now apply split_outcome_in_range.
  - apply concat_groups. lia.
Qed.

Lemma chunks_concat_to_token_sequence_witness :
  Demo.get_encoding "cl100k_base" = inr Demo.byte_encoding
  /\ (1 <= 3 <= sys_maxsize)%Z
  /\ exists chunks,
       fst (list_of Demo.get_encoding
              (chunked_tokens "ABCDEFG" 3 "cl100k_base")) = inr chunks
       /\ concat chunks = encode Demo.byte_encoding "ABCDEFG".
Proof.
  split; [reflexivity|]. split; [unfold sys_maxsize; lia|].
  apply (chunks_concat_to_token_sequence Demo.get_encoding Demo.byte_encoding
           "ABCDEFG" 3 "cl100k_base"); [reflexivity | unfold sys_maxsize; lia].
Defined.

(** C3, as stated, fails: with [max_tokens = 2^63], which is at least 1,
    the iteration raises the error of [islice] instead of yielding chunks,
    and this also on an empty token sequence, which therefore does not
    yield zero chunks. *)
Lemma chunk_sizes_counterexample :
  let big := 9223372036854775808%Z in
  (1 <= big)%Z
  /\ encode Demo.byte_encoding "" = []
  /\ list_of Demo.get_encoding (chunked_tokens "" big "cl100k_base")
     = (inl islice_error, ChunkedFinished)
  /\ list_of Demo.get_encoding (chunked_tokens "ABCDEFG" big "cl100k_base")
     = (inl islice_error, ChunkedFinished)
  /\ ~ (exists chunks,
          fst (list_of Demo.get_encoding
                 (chunked_tokens "" big "cl100k_base")) = inr chunks
          /\ chunks = []).
Proof.
  cbv zeta. split; [lia|]. split; [reflexivity|].
  split; [vm_compute; reflexivity|]. split; [vm_compute; reflexivity|].
  intros (chunks & H & _). vm_compute in H. discriminate.
Qed.

(** C3, amended: for every text and every [max_tokens = M] with
    [1 <= M <= sys.maxsize], every chunk but the last has exactly [M]
    tokens, every chunk (the last one in particular) has between 1 and [M]
    tokens, an empty token sequence yields no chunk, and with [M = 1] a
    text of [N] tokens yields its [N] tokens as [N] single-token chunks. *)
Theorem chunk_sizes
    (get_encoding : string -> exn + Encoding) (enc : Encoding)
    (text : string) (max_tokens : Z) (encoding_name : string) :
  get_encoding encoding_name = inr enc ->
  (1 <= max_tokens <= sys_maxsize)%Z ->
  exists chunks,
    fst (list_of get_encoding (chunked_tokens text max_tokens encoding_name))
    = inr chunks
    /\ Forall (fun c => Z.of_nat (List.length c) = max_tokens)
         (removelast chunks)
    /\ Forall (fun c => (1 <= Z.of_nat (List.length c) <= max_tokens)%Z) chunks
    /\ (encode enc text = [] -> chunks = [])
    /\ (max_tokens = 1%Z ->
        chunks = map (fun t => [t]) (encode enc text)
        /\ List.length chunks = List.length (encode enc text)).
Proof.
  intros He HM.
  assert (Hk : 1 <= Z.to_nat max_tokens) by lia.
  exists (groups (Z.to_nat max_tokens) (encode enc text)).
  split; [|split; [|split; [|split]]].
  - rewrite list_of_chunked_tokens. cbn [fst].
    now apply split_outcome_in_range.
  - eapply Forall_impl; [|apply groups_removelast_full; exact Hk].
    intros c Hc. simpl in Hc. lia.
  - eapply Forall_impl; [|apply groups_bounds; exact Hk].
    intros c Hc. simpl in Hc. lia.
  - intros ->. reflexivity.
  - intros ->. change (Z.to_nat 1) with 1. rewrite groups_one.
    split; [reflexivity | apply length_map].
Qed.

Lemma chunk_sizes_witness :
  Demo.get_encoding "cl100k_base" = inr Demo.byte_encoding
  /\ (1 <= 1 <= sys_maxsize)%Z
  /\ exists chunks,
       fst (list_of Demo.get_encoding (chunked_tokens "abc" 1 "cl100k_base"))
       = inr chunks
       /\ Forall (fun c => Z.of_nat (List.length c) = 1%Z) (removelast chunks)
       /\ Forall (fun c => (1 <= Z.of_nat (List.length c) <= 1)%Z) chunks
       /\ (encode Demo.byte_encoding "abc" = [] -> chunks = [])
       /\ (1%Z = 1%Z ->
           chunks = map (fun t => [t]) (encode Demo.byte_encoding "abc")
           /\ List.length chunks
              = List.length (encode Demo.byte_encoding "abc")).
Proof.
  split; [reflexivity|]. split; [unfold sys_maxsize; lia|].
  apply (chunk_sizes Demo.get_encoding Demo.byte_encoding
           "abc" 1 "cl100k_base"); [reflexivity | unfold sys_maxsize; lia].
Defined.

(** The scenarios of the specification: seven tokens in chunks of three,
    and 9000 tokens in chunks of 8191. *)
Example seven_tokens_by_three :
  fst (list_of Demo.get_encoding (chunked_tokens "ABCDEFG" 3 "cl100k_base"))
  = inr [[65; 66; 67]; [68; 69; 70]; [71]]%Z.
Proof. reflexivity. Qed.

Example nine_thousand_tokens :
  map (fun c => Z.of_nat (List.length c))
      (groups (Z.to_nat EMBEDDING_CTX_LENGTH) (repeat 7%Z (Z.to_nat 9000)))
  = [8191; 809]%Z.
Proof. vm_compute. reflexivity. Qed.

(** C5: with a [max_tokens] below 1 the first step of iterating the split
    raises the [ValueError] of the test [n < 1] before any chunk is
    yielded, the generator is finished afterwards, and a consumer loop ends
    with that error without having run its body once (nothing is retried).
    With [max_tokens >= 1] that branch is unreachable: no step of the
    iteration raises its error.  Up to [sys.maxsize] no step raises at
    all; above it the first step raises another error, the one of
    [islice]. *)
Theorem invalid_max_tokens_raises
    (env : Env) (enc : Encoding)
    (text model : string) (max_tokens : Z) (encoding_name : string) :
  tiktoken_get_encoding env encoding_name = inr enc ->
  let get_encoding := tiktoken_get_encoding env in
  let g := chunked_tokens text max_tokens encoding_name in
  let err := ValueError "n must be at least one" in
  ((max_tokens < 1)%Z ->
     chunked_next get_encoding g = (Raise err, ChunkedFinished)
     /\ (forall (S : Type) (body : S -> list token -> exn + S) (s : S),
           for_chunks get_encoding body g s = (inl err, ChunkedFinished))
     /\ list_of get_encoding g = (inl err, ChunkedFinished)
     /\ len_safe_get_embedding env text model max_tokens encoding_name
        = inl err
     /\ is_ValueError err = true)
  /\ ((1 <= max_tokens)%Z ->
      guard_never_fires get_encoding g
      /\ ((max_tokens <= sys_maxsize)%Z -> never_raises get_encoding g)
      /\ ((sys_maxsize < max_tokens)%Z ->
          chunked_next get_encoding g = (Raise islice_error, ChunkedFinished)
          /\ islice_error <> err)).
Proof.
  intros He get_encoding g err. subst get_encoding g err. split.
  - intros HM. split; [|split; [|split; [|split]]].
    + simpl. rewrite He. unfold yield_from, batched. simpl.
      apply Z.ltb_lt in HM. now rewrite HM.
    + intros S body s. eapply for_chunks_bad_length; eauto.
    + eapply for_chunks_bad_length; eauto.
    + unfold len_safe_get_embedding.
      erewrite for_chunks_bad_length; eauto.
    + reflexivity.
  - intros HM. split; [|split].
    + intros k.
      destruct (start_next_guard (tiktoken_get_encoding env) text max_tokens
                  encoding_name enc He HM) as [Hs Hr].
      destruct k as [|k]; [exact Hr|].
      rewrite frame_after_succ.
      now apply settled_guard_never_fires.
    + intros Hmax k.
      destruct (start_next (tiktoken_get_encoding env) text max_tokens
                  encoding_name enc He (conj HM Hmax)) as [Hs Hr].
      destruct k as [|k]; [exact Hr|].
      rewrite frame_after_succ.
      now apply settled_never_raises.
    + intros Hmax. split; [|discriminate].
      simpl. rewrite He. unfold yield_from, batched. simpl.
      assert (H1 : (max_tokens <? 1)%Z = false) by (apply Z.ltb_ge; lia).
      rewrite H1. unfold batched_loop. now rewrite islice_too_long.
Qed.

Lemma invalid_max_tokens_raises_witness :
  tiktoken_get_encoding Demo.env "cl100k_base" = inr Demo.byte_encoding
  /\ (0 < 1)%Z
  /\ len_safe_get_embedding Demo.env "ABCDEFG" embeddings_model 0 "cl100k_base"
     = inl (ValueError "n must be at least one")
  /\ (1 <= 3)%Z
  /\ guard_never_fires (tiktoken_get_encoding Demo.env)
       (chunked_tokens "ABCDEFG" 3 "cl100k_base")
  /\ (3 <= sys_maxsize)%Z
  /\ never_raises (tiktoken_get_encoding Demo.env)
       (chunked_tokens "ABCDEFG" 3 "cl100k_base")
  /\ (1 <= 9223372036854775808)%Z
  /\ (sys_maxsize < 9223372036854775808)%Z
  /\ guard_never_fires (tiktoken_get_encoding Demo.env)
       (chunked_tokens "ABCDEFG" 9223372036854775808 "cl100k_base")
  /\ chunked_next (tiktoken_get_encoding Demo.env)
       (chunked_tokens "ABCDEFG" 9223372036854775808 "cl100k_base")
     = (Raise islice_error, ChunkedFinished).
Proof.
  assert (H3 : (1 <= 3)%Z) by lia.
  assert (H3' : (3 <= sys_maxsize)%Z) by (unfold sys_maxsize; lia).
  assert (Hb : (1 <= 9223372036854775808)%Z) by lia.
  assert (Hb' : (sys_maxsize < 9223372036854775808)%Z)
    by (unfold sys_maxsize; lia).
  split; [reflexivity|]. split; [lia|]. split; [|split; [exact H3|]].
  - apply (invalid_max_tokens_raises Demo.env Demo.byte_encoding
             "ABCDEFG" embeddings_model 0 "cl100k_base" eq_refl).
    lia.
  - destruct (proj2 (invalid_max_tokens_raises Demo.env Demo.byte_encoding
                       "ABCDEFG" embeddings_model 3 "cl100k_base" eq_refl)
                H3) as (Hg & Hn & _).
    destruct (proj2 (invalid_max_tokens_raises Demo.env Demo.byte_encoding
                       "ABCDEFG" embeddings_model 9223372036854775808
                       "cl100k_base" eq_refl) Hb) as (Hg' & _ & Hi).
    split; [exact Hg|]. split; [exact H3'|]. split; [exact (Hn H3')|].
    split; [exact Hb|]. split; [exact Hb'|]. split; [exact Hg'|].
    exact (proj1 (Hi Hb')).
Defined.

(** C7, as stated, fails: the value the splitter returns is a generator,
    and a second iteration of the same generator yields no chunk. *)
Lemma reiteration_counterexample :
  let g := chunked_tokens "ABCDEFG" 3 "cl100k_base" in
  let first := list_of Demo.get_encoding g in
  let second := list_of Demo.get_encoding (snd first) in
  fst first = inr [[65; 66; 67]; [68; 69; 70]; [71]]%Z
  /\ fst second = inr []
  /\ ~ restartable Demo.get_encoding g.
Proof.
  cbv zeta. split; [reflexivity|]. split; [reflexivity|].
  unfold restartable. vm_compute. discriminate.
Qed.

(** C7, amended: for every text and every [max_tokens] with
    [1 <= max_tokens <= sys.maxsize] the value the splitter returns is a
    finite single-pass sequence of chunks: its first iteration ends
    normally after yielding the chunks of the token sequence, a second
    iteration of the same value ends at once with no chunk, so re-iterating
    reproduces the chunks exactly when the token sequence is empty. *)
Theorem split_is_single_pass
    (get_encoding : string -> exn + Encoding) (enc : Encoding)
    (text : string) (max_tokens : Z) (encoding_name : string) :
  get_encoding encoding_name = inr enc ->
  (1 <= max_tokens <= sys_maxsize)%Z ->
  let g := chunked_tokens text max_tokens encoding_name in
  exists chunks,
    list_of get_encoding g = (inr chunks, ChunkedFinished)
    /\ concat chunks = encode enc text
    /\ list_of get_encoding (snd (list_of get_encoding g))
       = (inr [], ChunkedFinished)
    /\ (restartable get_encoding g <-> encode enc text = []).
Proof.
  intros He HM g.
  assert (Hk : 1 <= Z.to_nat max_tokens) by lia.
  assert (Hlist : list_of get_encoding g
                  = (inr (groups (Z.to_nat max_tokens) (encode enc text)),
                     ChunkedFinished)).
  { subst g. rewrite list_of_chunked_tokens.
    now rewrite (split_outcome_in_range _ _ _ _ enc). }
  exists (groups (Z.to_nat max_tokens) (encode enc text)).
  split; [exact Hlist|]. split; [now apply concat_groups|].
  split; [now rewrite Hlist|].
  unfold restartable. rewrite Hlist. simpl.
  rewrite <- (groups_empty_iff (Z.to_nat max_tokens)) by exact Hk.
  split; intros H; [injection H as H|]; congruence.
Qed.

Lemma split_is_single_pass_witness :
  Demo.get_encoding "cl100k_base" = inr Demo.byte_encoding
  /\ (1 <= 3 <= sys_maxsize)%Z
  /\ exists chunks,
       list_of Demo.get_encoding (chunked_tokens "ABCDEFG" 3 "cl100k_base")
       = (inr chunks, ChunkedFinished)
       /\ concat chunks = encode Demo.byte_encoding "ABCDEFG"
       /\ list_of Demo.get_encoding
            (snd (list_of Demo.get_encoding
                    (chunked_tokens "ABCDEFG" 3 "cl100k_base")))
          = (inr [], ChunkedFinished)
       /\ (restartable Demo.get_encoding
             (chunked_tokens "ABCDEFG" 3 "cl100k_base")
           <-> encode Demo.byte_encoding "ABCDEFG" = []).
Proof.
  split; [reflexivity|]. split; [unfold sys_maxsize; lia|].
  apply (split_is_single_pass Demo.get_encoding Demo.byte_encoding
           "ABCDEFG" 3 "cl100k_base"); [reflexivity | unfold sys_maxsize; lia].
Defined.

(** ** Separate calls of the splitter *)

Lemma frame_of_new (st : store) (g : chunked_frame) :
  frame_of (st ++ [g]) (List.length st) = g.
Proof. unfold frame_of. now rewrite nth_middle. Qed.

Lemma frame_of_old (st : store) (g : chunked_frame) (r : nat) :
  r < List.length st -> frame_of (st ++ [g]) r = frame_of st r.
Proof. intros H. unfold frame_of. now rewrite app_nth1. Qed.

Lemma length_store_set (st : store) :
  forall r g, List.length (store_set st r g) = List.length st.
Proof.
  induction st as [|g0 st IH]; intros [|r] g; simpl; auto.
Qed.

Lemma frame_of_set_same (st : store) :
  forall r g, r < List.length st -> frame_of (store_set st r g) r = g.
Proof.
  unfold frame_of.
  induction st as [|g0 st IH]; intros [|r] g H; simpl in *; try lia; auto.
  apply IH. lia.
Qed.

Lemma frame_of_set_other (st : store) :
  forall r r' g, r <> r' -> frame_of (store_set st r g) r' = frame_of st r'.
Proof.
  unfold frame_of.
  induction st as [|g0 st IH]; intros [|r] [|r'] g H; simpl; try congruence.
  apply IH. congruence.
Qed.

Section Calls.

Variable get_encoding : string -> exn + Encoding.

Lemma for_fuel_snoc_acc (fuel : nat) :
  forall g (acc : list (list token)),
    for_fuel get_encoding (fun acc chunk => inr (acc ++ [chunk])) fuel g acc
    = (match fst (for_fuel get_encoding
                    (fun acc chunk => inr (acc ++ [chunk])) fuel g []) with
       | inl e => inl e
       | inr l => inr (acc ++ l)
       end,
       snd (for_fuel get_encoding
              (fun acc chunk => inr (acc ++ [chunk])) fuel g [])).
Proof.
  induction fuel as [|fuel IH]; intros g acc; simpl.
  - now rewrite app_nil_r.
  - destruct (chunked_next get_encoding g) as [[y| |e] g']; simpl.
    + rewrite (IH g' (acc ++ [y])), (IH g' [y]). simpl.
      destruct (fst (for_fuel _ _ fuel g' [])); [reflexivity|].
      now rewrite <- app_assoc.
    + now rewrite app_nil_r.
    + reflexivity.
Qed.

(** [list(g)], one step at a time. *)
Lemma list_of_step g :
  list_of get_encoding g
  = match chunked_next get_encoding g with
    | (Yield y, g') =>
        (match fst (list_of get_encoding g') with
         | inl e => inl e
         | inr l => inr (y :: l)
         end,
         snd (list_of get_encoding g'))
    | (StopIteration, g') => (inr [], g')
    | (Raise e, g') => (inl e, g')
    end.
Proof.
  unfold list_of at 1. rewrite for_chunks_eq.
  destruct (chunked_next get_encoding g) as [[y| |e] g']; try reflexivity.
  unfold for_chunks. cbn [app]. rewrite for_fuel_snoc_acc.
  reflexivity.
Qed.

Lemma next_stop_finished g g' :
  chunked_next get_encoding g = (StopIteration, g') -> g' = ChunkedFinished.
Proof.
  assert (Hy : forall inner gf,
             yield_from inner = (StopIteration, gf) -> gf = ChunkedFinished).
  { intros inner gf. unfold yield_from.
    destruct (batched_next inner) as [[y| |e0] gi]; intros H;
      try discriminate; now injection H. }
  destruct g as [text n name|inner|]; simpl.
  - destruct (get_encoding name) as [e0|enc]; [discriminate|]. apply Hy.
  - apply Hy.
  - intros H. now injection H.
Qed.

(** The chunks taken from a generator and the chunks it still yields make
    up the chunks it would have yielded from the start. *)
Lemma take_then_list (k : nat) :
  forall g chunks,
    fst (list_of get_encoding g) = inr chunks ->
    exists tail,
      fst (list_of get_encoding (snd (take_chunks get_encoding k g)))
      = inr tail
      /\ fst (take_chunks get_encoding k g) ++ tail = chunks.
Proof.
  induction k as [|k IH]; intros g chunks H.
  - exists chunks. auto.
  - rewrite list_of_step in H. cbn [take_chunks].
    destruct (chunked_next get_encoding g) as [[y| |e0] g'] eqn:Hn;
      cbn [fst] in H.
    + destruct (fst (list_of get_encoding g')) as [e'|l] eqn:Hl;
        [discriminate|].
      injection H as <-.
      destruct (IH g' l Hl) as (tail & Htail & Happ).
      destruct (take_chunks get_encoding k g') as [cs g'']. cbn [fst snd] in *.
      exists tail. split; [exact Htail|]. now rewrite <- Happ.
    + injection H as <-. apply next_stop_finished in Hn. subst g'.
      exists []. auto.
    + discriminate.
Qed.

(** When the split fails, it fails at the first step. *)
Lemma split_error_at_first_step text n name e :
  split_outcome get_encoding text n name = inl e ->
  chunked_next get_encoding (chunked_tokens text n name)
  = (Raise e, ChunkedFinished).
Proof.
  unfold split_outcome. simpl.
  destruct (get_encoding name) as [e'|enc]; [congruence|].
  unfold yield_from, batched. simpl.
  destruct (n <? 1)%Z eqn:Hn; [congruence|].
  destruct (sys_maxsize <? n)%Z eqn:Hmax; [|discriminate].
  intros H. injection H as <-.
  apply Z.ltb_lt in Hmax. unfold batched_loop.
  now rewrite islice_too_long.
Qed.

End Calls.

(** C8: the chunk sequence is a function of the triple (text, max_tokens,
    encoding).  Two separate calls of the splitter with the same arguments
    make two generator objects.  Whatever the store was before, and however
    many chunks have been taken from the first object when the second call
    is made, iterating the second object gives [split_outcome] of the
    triple, and the chunks the first object yields, before and after, are
    the same sequence; in particular the two objects iterated one after the
    other give identical outcomes. *)
Theorem split_is_deterministic
    (get_encoding : string -> exn + Encoding)
    (text : string) (max_tokens : Z) (encoding_name : string)
    (st : store) (k : nat) :
  let '(r1, r2, taken, second, rest) :=
    two_calls get_encoding st k text max_tokens encoding_name in
  r1 <> r2
  /\ second = split_outcome get_encoding text max_tokens encoding_name
  /\ (k = 0 -> rest = second)
  /\ match second with
     | inr chunks => exists tail, rest = inr tail /\ taken ++ tail = chunks
     | inl e => taken = []
     end.
Proof.
  unfold two_calls, new_chunked_tokens, store_take, store_list.
  set (g0 := chunked_tokens text max_tokens encoding_name).
  set (st1 := st ++ [g0]).
  set (r1 := List.length st).
  assert (Hr1 : r1 < List.length st1)
    by (subst st1 r1; rewrite length_app; simpl; lia).
  assert (H1 : frame_of st1 r1 = g0) by apply frame_of_new.
  rewrite H1.
  set (g1 := snd (take_chunks get_encoding k g0)).
  set (st2 := store_set st1 r1 g1).
  assert (Hlen2 : List.length st2 = List.length st1)
    by apply length_store_set.
  assert (Hneq : List.length st2 <> r1) by lia.
  assert (H2 : frame_of (st2 ++ [g0]) (List.length st2) = g0)
    by apply frame_of_new.
  rewrite H2.
  assert (H3 : frame_of (store_set (st2 ++ [g0]) (List.length st2)
                           (snd (list_of get_encoding g0))) r1 = g1).
  { rewrite frame_of_set_other by exact Hneq.
    rewrite frame_of_old by lia.
    apply frame_of_set_same. exact Hr1. }
  rewrite H3.
  assert (Hout : fst (list_of get_encoding g0)
                 = split_outcome get_encoding text max_tokens encoding_name)
    by (subst g0; now rewrite list_of_chunked_tokens).
  split; [lia|]. split; [exact Hout|]. split.
  - intros ->. reflexivity.
  - destruct (fst (list_of get_encoding g0)) as [e|chunks] eqn:Hl.
    + symmetry in Hout.
      apply split_error_at_first_step in Hout.
      destruct k as [|k]; [reflexivity|].
      cbn [take_chunks]. subst g0. now rewrite Hout.
    + destruct (take_then_list get_encoding k g0 chunks Hl)
        as (tail & Htail & Happ).
      exists tail. split; assumption.
Qed.

(** Two calls on a text of three chunks: one chunk is taken from the first
    object before the second call is made. *)
Example two_calls_run :
  two_calls Demo.get_encoding [ChunkedFinished] 1 "ABCDEFG" 3 "cl100k_base"
  = (1, 2, [[65; 66; 67]]%Z,
     inr [[65; 66; 67]; [68; 69; 70]; [71]]%Z,
     inr [[68; 69; 70]; [71]]%Z).
Proof. reflexivity. Qed.

(** * The embedder *)

Section Embedder.

Variable env : Env.
Variables model encoding_name : string.
Variable enc : Encoding.
Hypothesis encoding_known : tiktoken_get_encoding env encoding_name = inr enc.

Lemma embed_chunks_ok chunks vs :
  Forall2 (embeds env model) chunks vs ->
  forall vs0 ts0,
    foldM (embed_chunk env model encoding_name) chunks (vs0, ts0)
    = inr (vs0 ++ vs, ts0 ++ map (decode enc) chunks).
Proof.
  induction 1 as [|c v chunks vs Hcv _ IH]; intros vs0 ts0.
  - simpl. now rewrite !app_nil_r.
  - cbn [foldM]. unfold embed_chunk at 1. red in Hcv. rewrite Hcv.
    cbn [Exc.bind]. rewrite encoding_known. cbn [Exc.bind].
    rewrite IH. cbn [map]. now rewrite <- !app_assoc.
Qed.

Lemma embed_chunks_inv chunks :
  forall vs0 ts0 vs' ts',
    foldM (embed_chunk env model encoding_name) chunks (vs0, ts0)
    = inr (vs', ts') ->
    exists vs,
      Forall2 (embeds env model) chunks vs
      /\ vs' = vs0 ++ vs
      /\ ts' = ts0 ++ map (decode enc) chunks.
Proof.
  induction chunks as [|c chunks IH]; intros vs0 ts0 vs' ts' H.
  - simpl in H. injection H as <- <-.
    exists []. rewrite !app_nil_r. repeat split. constructor.
  - cbn [foldM] in H. unfold embed_chunk at 1 in H.
    destruct (generate_embeddings env (InputTokens c) model) as [e|v] eqn:Hv;
      [discriminate|].
    cbn [Exc.bind] in H. rewrite encoding_known in H. cbn [Exc.bind] in H.
    apply IH in H as (vs & HF & -> & ->).
    exists (v :: vs). cbn [map]. rewrite <- !app_assoc.
    repeat split. constructor; assumption.
Qed.

End Embedder.

Lemma split_outcome_ok get_encoding text n name chunks :
  split_outcome get_encoding text n name = inr chunks ->
  exists enc,
    get_encoding name = inr enc
    /\ (1 <= n)%Z
    /\ chunks = groups (Z.to_nat n) (encode enc text).
Proof.
  unfold split_outcome.
  destruct (get_encoding name) as [e|enc]; [discriminate|].
  destruct (n <? 1)%Z eqn:Hn; [discriminate|].
  destruct (sys_maxsize <? n)%Z eqn:Hmax; [discriminate|].
  intros H. injection H as <-. apply Z.ltb_ge in Hn. eauto.
Qed.

(** What a successful call of the embedder returned. *)
Lemma len_safe_get_embedding_inv env text model max_tokens name vs ts :
  len_safe_get_embedding env text model max_tokens name = inr (vs, ts) ->
  exists enc chunks,
    tiktoken_get_encoding env name = inr enc
    /\ fst (list_of (tiktoken_get_encoding env)
              (chunked_tokens text max_tokens name)) = inr chunks
    /\ Forall2 (embeds env model) chunks vs
    /\ ts = map (decode enc) chunks.
Proof.
  unfold len_safe_get_embedding. rewrite for_chunks_chunked_tokens.
  rewrite list_of_chunked_tokens. cbn [fst].
  destruct (split_outcome _ text max_tokens name) as [e|chunks] eqn:Hs;
    [discriminate|].
  intros H.
  destruct (split_outcome_ok _ _ _ _ _ Hs) as (enc & He & _ & _).
  destruct (embed_chunks_inv env model name enc He _ _ _ _ _ H)
    as (vs1 & HF & Hvs & Hts).
  simpl in Hvs, Hts. subst vs ts.
  exists enc, chunks. auto.
Qed.

Lemma len_safe_get_embedding_ok env text model max_tokens name chunks vs :
  fst (list_of (tiktoken_get_encoding env)
         (chunked_tokens text max_tokens name)) = inr chunks ->
  Forall2 (embeds env model) chunks vs ->
  exists enc,
    tiktoken_get_encoding env name = inr enc
    /\ len_safe_get_embedding env text model max_tokens name
       = inr (vs, map (decode enc) chunks).
Proof.
  rewrite list_of_chunked_tokens. cbn [fst]. intros Hs HF.
  destruct (split_outcome_ok _ _ _ _ _ Hs) as (enc & He & _ & _).
  exists enc. split; [exact He|].
  unfold len_safe_get_embedding. rewrite for_chunks_chunked_tokens, Hs.
  now rewrite (embed_chunks_ok env model name enc He chunks vs HF).
Qed.

Lemma Forall_exists_Forall2 {A B : Type} (R : A -> B -> Prop) (l : list A) :
  Forall (fun a => exists b, R a b) l -> exists l', Forall2 R l l'.
Proof.
  induction 1 as [|a l [b Hb] _ [l' IH]].
  - exists []. constructor.
  - exists (b :: l'). now constructor.
Qed.

Lemma Forall2_nth_error {A B : Type} (R : A -> B -> Prop) l l' :
  Forall2 R l l' ->
  forall i a, nth_error l i = Some a ->
    exists b, nth_error l' i = Some b /\ R a b.
Proof.
  induction 1 as [|x y l l' Hxy _ IH]; intros i a Hi.
  - destruct i; discriminate.
  - destruct i as [|i]; simpl in *.
    + injection Hi as <-. eauto.
    + eauto.
Qed.

(** C4: when every per-chunk embedding request of a text succeeds, the
    embedder returns exactly one vector and one decoded text per chunk, and
    the [i]-th vector is the embedding of the [i]-th chunk and the [i]-th
    text its decoding. *)
Theorem one_vector_and_text_per_chunk
    (env : Env) (text model : string) (max_tokens : Z)
    (encoding_name : string) (chunks : list (list token)) :
  fst (list_of (tiktoken_get_encoding env)
         (chunked_tokens text max_tokens encoding_name)) = inr chunks ->
  Forall (fun c => exists v,
            generate_embeddings env (InputTokens c) model = inr v) chunks ->
  exists enc vs ts,
    tiktoken_get_encoding env encoding_name = inr enc
    /\ len_safe_get_embedding env text model max_tokens encoding_name
       = inr (vs, ts)
    /\ List.length vs = List.length chunks
    /\ List.length ts = List.length chunks
    /\ forall i c, nth_error chunks i = Some c ->
         exists v,
           nth_error vs i = Some v
           /\ generate_embeddings env (InputTokens c) model = inr v
           /\ nth_error ts i = Some (decode enc c).
Proof.
  intros Hchunks Hall.
  destruct (Forall_exists_Forall2 _ _ Hall) as [vs HF].
  destruct (len_safe_get_embedding_ok env text model max_tokens encoding_name
              chunks vs Hchunks HF) as (enc & He & Hres).
  exists enc, vs, (map (decode enc) chunks).
  split; [exact He|]. split; [exact Hres|].
  split; [symmetry; eapply Forall2_length; eauto|].
  split; [apply length_map|].
  intros i c Hi.
  destruct (Forall2_nth_error _ _ _ HF i c Hi) as (v & Hv & Hcv).
  exists v. repeat split; try assumption.
  now rewrite nth_error_map, Hi.
Qed.

Lemma one_vector_and_text_per_chunk_witness :
  exists chunks enc vs ts,
    fst (list_of (tiktoken_get_encoding Demo.env)
           (chunked_tokens "ABCDEFG" 3 "cl100k_base")) = inr chunks
    /\ Forall (fun c => exists v,
                 generate_embeddings Demo.env (InputTokens c) embeddings_model
                 = inr v) chunks
    /\ tiktoken_get_encoding Demo.env "cl100k_base" = inr enc
    /\ len_safe_get_embedding Demo.env "ABCDEFG" embeddings_model 3
         "cl100k_base" = inr (vs, ts)
    /\ List.length vs = List.length chunks
    /\ List.length ts = List.length chunks
    /\ forall i c, nth_error chunks i = Some c ->
         exists v,
           nth_error vs i = Some v
           /\ generate_embeddings Demo.env (InputTokens c) embeddings_model
              = inr v
           /\ nth_error ts i = Some (decode enc c).
Proof.
  exists [[65; 66; 67]; [68; 69; 70]; [71]]%Z.
  assert (Hchunks :
    fst (list_of (tiktoken_get_encoding Demo.env)
           (chunked_tokens "ABCDEFG" 3 "cl100k_base"))
    = inr [[65; 66; 67]; [68; 69; 70]; [71]]%Z) by reflexivity.
  assert (Hall :
    Forall (fun c => exists v,
              generate_embeddings Demo.env (InputTokens c) embeddings_model
              = inr v) [[65; 66; 67]; [68; 69; 70]; [71]]%Z).
  { repeat constructor; eexists; reflexivity. }
  destruct (one_vector_and_text_per_chunk Demo.env "ABCDEFG" embeddings_model
              3 "cl100k_base" _ Hchunks Hall) as (enc & vs & ts & H).
  exists enc, vs, ts. split; [exact Hchunks|]. split; [exact Hall|]. exact H.
Defined.

(** ** The embedder and the weighted average *)

Lemma vector_eq_nth_seq (v : vector) :
  forall f : nat -> Q,
    (forall j, j < List.length v -> (f j == nth j v 0)%Q) ->
    vector_eq v (map f (seq 0 (List.length v))).
Proof.
  unfold vector_eq.
  induction v as [|x v IH]; intros f Hf; [constructor|].
  cbn [List.length seq map]. constructor.
  - symmetry. apply (Hf 0). simpl. lia.
  - rewrite <- seq_shift, map_map. apply IH.
    intros j Hj. apply (Hf (S j)). simpl. lia.
Qed.

(** With a single non-empty chunk the weighted average is the vector of
    that chunk. *)
Lemma spec_weighted_average_single (c : list token) (v : vector) :
  c <> [] -> vector_eq v (spec_weighted_average [c] [v]).
Proof.
  intros Hc. unfold spec_weighted_average. cbn [hd].
  apply vector_eq_nth_seq. intros j _.
  unfold spec_component, spec_weight, spec_total_tokens.
  cbn [combine map fold_right]. rewrite Nat.add_0_r.
  assert (Hnz : ~ (inject_Z (Z.of_nat (List.length c)) == 0)%Q).
  { unfold Qeq, inject_Z. simpl.
    destruct c; [congruence|]. simpl. lia. }
  rewrite Qplus_0_r. unfold Qdiv. rewrite Qmult_inv_r by exact Hnz.
  apply Qmult_1_l.
Qed.

(** C1, as stated, fails: on a text of three chunks the embedder returns
    the three chunk vectors and the three chunk texts; it does not return
    one vector, and none of the vectors it returns is the weighted
    average. *)
Lemma combine_counterexample :
  let chunks := [[65; 66; 67]; [68; 69; 70]; [71]]%Z in
  let vs := [[198; 3]; [207; 3]; [71; 1]]%Q in
  fst (list_of (tiktoken_get_encoding Demo.env)
         (chunked_tokens "ABCDEFG" 3 "cl100k_base")) = inr chunks
  /\ len_safe_get_embedding Demo.env "ABCDEFG" embeddings_model 3 "cl100k_base"
     = inr (vs, ["ABC"; "DEF"; "G"])
  /\ (forall v, In v vs -> ~ vector_eq v (spec_weighted_average chunks vs))
  /\ ~ returns_weighted_average Demo.env "ABCDEFG" embeddings_model 3
         "cl100k_base".
Proof.
  cbv zeta. split; [reflexivity|]. split; [reflexivity|]. split.
  - intros v [<-|[<-|[<-|[]]]] H; inversion H as [|? ? ? ? Hq _];
      vm_compute in Hq; discriminate.
  - intros (chunks & vs & w & texts & _ & _ & _ & H).
    vm_compute in H. discriminate.
Qed.

(** C1, amended: the embedder has no combination mode.  For every text that
    splits into chunks and whose per-chunk requests succeed it returns the
    per-chunk embedding vectors unchanged, one per chunk and in chunk order,
    together with the decoded chunk texts; what it returns is a single
    vector equal to the token-count-weighted average exactly when the text
    has exactly one chunk. *)
Theorem embedder_returns_chunk_vectors
    (env : Env) (text model : string) (max_tokens : Z)
    (encoding_name : string) (chunks : list (list token))
    (vs : list vector) :
  fst (list_of (tiktoken_get_encoding env)
         (chunked_tokens text max_tokens encoding_name)) = inr chunks ->
  Forall2 (embeds env model) chunks vs ->
  exists enc,
    tiktoken_get_encoding env encoding_name = inr enc
    /\ len_safe_get_embedding env text model max_tokens encoding_name
       = inr (vs, map (decode enc) chunks)
    /\ (returns_weighted_average env text model max_tokens encoding_name
        <-> List.length chunks = 1).
Proof.
  intros Hchunks HF.
  destruct (len_safe_get_embedding_ok env text model max_tokens encoding_name
              chunks vs Hchunks HF) as (enc & He & Hres).
  exists enc. split; [exact He|]. split; [exact Hres|]. split.
  - intros (chunks' & vs' & w & texts & _ & _ & _ & Hret).
    rewrite Hres in Hret. injection Hret as Hvs _.
    apply Forall2_length in HF. rewrite HF, Hvs. reflexivity.
  - intros Hone.
    destruct chunks as [|c [|c' chunks]]; try discriminate.
    inversion HF as [|? v ? vs1 Hcv Hnil]; subst.
    inversion Hnil; subst.
    exists [c], [v], v, (map (decode enc) [c]).
    split; [exact Hchunks|]. split; [exact HF|]. split; [|exact Hres].
    apply spec_weighted_average_single.
    rewrite list_of_chunked_tokens in Hchunks. cbn [fst] in Hchunks.
    destruct (split_outcome_ok _ _ _ _ _ Hchunks) as (enc' & _ & HM & Hg).
    pose proof (groups_bounds (Z.to_nat max_tokens) (encode enc' text)
                  ltac:(lia)) as Hb.
    rewrite <- Hg in Hb. inversion Hb as [|? ? Hc _]; subst.
    intros ->. simpl in Hc. lia.
Qed.

Lemma embedder_returns_chunk_vectors_witness :
  let chunks := [[65; 66; 67]; [68; 69; 70]; [71]]%Z in
  let vs := [[198; 3]; [207; 3]; [71; 1]]%Q in
  fst (list_of (tiktoken_get_encoding Demo.env)
         (chunked_tokens "ABCDEFG" 3 "cl100k_base")) = inr chunks
  /\ Forall2 (embeds Demo.env embeddings_model) chunks vs
  /\ exists enc,
       tiktoken_get_encoding Demo.env "cl100k_base" = inr enc
       /\ len_safe_get_embedding Demo.env "ABCDEFG" embeddings_model 3
            "cl100k_base" = inr (vs, map (decode enc) chunks)
       /\ (returns_weighted_average Demo.env "ABCDEFG" embeddings_model 3
             "cl100k_base" <-> List.length chunks = 1).
Proof.
  cbv zeta.
  assert (HF : Forall2 (embeds Demo.env embeddings_model)
                 [[65; 66; 67]; [68; 69; 70]; [71]]%Z
                 [[198; 3]; [207; 3]; [71; 1]]%Q)
    by (repeat constructor).
  split; [reflexivity|]. split; [exact HF|].
  exact (embedder_returns_chunk_vectors Demo.env "ABCDEFG" embeddings_model 3
           "cl100k_base" _ _ eq_refl HF).
Defined.

(** * The document processor *)

Lemma io_bind_inr {A B : Type} (m : io A) (f : A -> io B) out b :
  IO.bind m f = (out, inr b) ->
  exists out1 a out2,
    m = (out1, inr a) /\ f a = (out2, inr b) /\ out = out1 ++ out2.
Proof.
  unfold IO.bind. destruct m as [out1 [e|a]]; [discriminate|].
  destruct (f a) as [out2 r] eqn:Hf. intros H. injection H as <- ->.
  exists out1, a, out2. auto.
Qed.

Lemma io_lift_inr {A : Type} (r : exn + A) out a :
  IO.lift r = (out, inr a) -> r = inr a.
Proof. unfold IO.lift. congruence. Qed.

Lemma snd_io_bind {A B : Type} (m : io A) (f : A -> io B) :
  snd (IO.bind m f)
  = match snd m with
    | inl e => inl e
    | inr a => snd (f a)
    end.
Proof.
  unfold IO.bind. destruct m as [out [e|a]]; [reflexivity|].
  simpl. now destruct (f a).
Qed.

(** [categorize_text] never raises. *)
Lemma categorize_text_returns env text cats :
  exists out cat, categorize_text env text cats = (out, inr cat).
Proof.
  unfold categorize_text, IO.try_except, IO.lift.
  destruct (Exc.bind _ _) as [e|cat]; simpl; eauto.
Qed.

Lemma nth_error_enumerate {A : Type} (l : list A) :
  forall k i a,
    nth_error l i = Some a -> In ((k + i)%nat, a) (combine (seq k (List.length l)) l).
Proof.
  induction l as [|x l IH]; intros k i a Hi.
  - destruct i; discriminate.
  - destruct i as [|i]; simpl in *.
    + injection Hi as <-. left. f_equal. lia.
    + right. replace (k + S i) with (S k + i) by lia. now apply IH.
Qed.

Section Rows.

Variable env : Env.
Variables (file_name : string) (idx : nat).
Variables (title_vectors : list vector) (title_text : list string).
Variables (content_vectors : list vector) (content_text : list string).

Lemma append_rows_inv cat (l : list vector) :
  forall k data out rows,
    (forall j cv, nth_error l j = Some cv ->
                  nth_error content_vectors (k + j) = Some cv) ->
    for_io (append_row env file_name idx title_vectors title_text
              content_vectors content_text cat)
           (combine (seq k (List.length l)) l) data = (out, inr rows) ->
    exists rows',
      rows = data ++ rows'
      /\ List.length rows' = List.length l
      /\ forall j r, nth_error rows' j = Some r ->
           row_of_chunk env idx title_vectors title_text
             content_vectors content_text cat (k + j) r.
Proof.
  induction l as [|cv l IH]; intros k data out rows Hl H.
  - simpl in H. injection H as _ <-.
    exists []. rewrite app_nil_r.
    split; [reflexivity|]. split; [reflexivity|].
    intros j r Hj. destruct j; discriminate.
  - cbn [List.length seq combine for_io] in H.
    apply io_bind_inr in H as (out1 & data1 & out2 & Hrow & Hrest & _).
    unfold append_row in Hrow.
    apply io_bind_inr in Hrow as (o1 & title0 & o2 & Ht & Hrow & _).
    apply io_lift_inr in Ht.
    apply io_bind_inr in Hrow as (o3 & text_i & o4 & Hx & Hrow & _).
    apply io_lift_inr in Hx.
    apply io_bind_inr in Hrow as (o5 & tv0 & o6 & Hv & Hrow & _).
    apply io_lift_inr in Hv.
    apply io_bind_inr in Hrow as (o7 & u & o8 & _ & Hrow & _).
    unfold IO.ret in Hrow. injection Hrow as _ <-.
    apply IH in Hrest as (rows' & -> & Hlen & Hrows).
    + eexists (_ :: rows'). split; [now rewrite <- app_assoc|].
      split; [simpl; now rewrite Hlen|].
      intros j r Hj. destruct j as [|j].
      * injection Hj as <-. rewrite Nat.add_0_r.
        unfold row_of_chunk. cbn.
        repeat split; try assumption; try reflexivity.
        -- eauto.
        -- exists cv. split; [|reflexivity].
           unfold index. specialize (Hl 0 cv eq_refl).
           rewrite Nat.add_0_r in Hl. now rewrite Hl.
      * replace (k + S j) with (S k + j) by lia. now apply Hrows.
    + intros j cv' Hj. replace (S k + j) with (k + S j) by lia.
      now apply Hl.
Qed.

End Rows.

(** What a successful run of [process_file] went through. *)
Lemma process_file_inv env file_path idx cats model out rows :
  process_file env file_path idx cats model = (out, inr rows) ->
  exists t tvs tts cvs cts outc cat,
    document_text env file_path t
    /\ len_safe_get_embedding env (basename env file_path) model
         EMBEDDING_CTX_LENGTH EMBEDDING_ENCODING = inr (tvs, tts)
    /\ len_safe_get_embedding env t model
         EMBEDDING_CTX_LENGTH EMBEDDING_ENCODING = inr (cvs, cts)
    /\ categorize_text env (String.concat " " cts) cats = (outc, inr cat)
    /\ List.length rows = List.length cvs
    /\ forall i r, nth_error rows i = Some r ->
         row_of_chunk env idx tvs tts cvs cts cat i r.
Proof.
  unfold process_file. intros H.
  apply io_bind_inr in H as (o1 & u1 & o2 & _ & H & _).
  apply io_bind_inr in H as (o3 & text & o4 & Htext & H & _).
  apply io_bind_inr in H as (o5 & [tvs tts] & o6 & Htitle & H & _).
  apply io_lift_inr in Htitle.
  apply io_bind_inr in H as (o7 & u2 & o8 & _ & H & _).
  apply io_bind_inr in H as (o9 & t & o10 & Ht & H & _).
  apply io_bind_inr in H as (o11 & [cvs cts] & o12 & Hcontent & H & _).
  apply io_lift_inr in Hcontent.
  apply io_bind_inr in H as (o13 & u3 & o14 & _ & H & _).
  apply io_bind_inr in H as (o15 & cat & o16 & Hcat & H & _).
  apply io_bind_inr in H as (o17 & u4 & o18 & _ & H & _).
  destruct text as [t'|]; [|discriminate].
  unfold IO.ret in Ht. injection Ht as _ ->.
  unfold enumerate in H.
  apply append_rows_inv in H as (rows' & -> & Hlen & Hrows); [|auto].
  cbn [app] in *.
  exists t, tvs, tts, cvs, cts, o15, cat.
  split; [|split; [|split; [|split; [|split]]]]; try assumption.
  unfold document_text.
  destruct (endswith (basename env file_path) ".txt") eqn:Htxt.
  - left. split; [reflexivity|].
    apply io_bind_inr in Htext as (p1 & t1 & p2 & Hr & Hret & _).
    apply io_lift_inr in Hr. unfold IO.ret in Hret. congruence.
  - destruct (endswith (basename env file_path) ".pdf") eqn:Hpdf.
    + right. repeat split.
      apply io_bind_inr in Htext as (p1 & t1 & p2 & Hr & Hret & _).
      apply io_lift_inr in Hr. unfold IO.ret in Hret. congruence.
    + unfold IO.ret in Htext. discriminate.
Qed.

(** C10: all rows of a processed document carry the same title text and
    the same title vector: the decoding and the (serialised) embedding of
    the first chunk of the title.  Every title chunk is embedded, but no row
    refers to a title chunk after the first, and a title of several chunks
    raises no error. *)
Theorem rows_carry_first_title_chunk
    (env : Env) (file_path : string) (idx : nat) (cats : list string)
    (model : string) (out : list string) (rows : list row) :
  process_file env file_path idx cats model = (out, inr rows) ->
  exists enc title_chunks title_vectors title_text,
    tiktoken_get_encoding env EMBEDDING_ENCODING = inr enc
    /\ fst (list_of (tiktoken_get_encoding env)
              (chunked_tokens (basename env file_path) EMBEDDING_CTX_LENGTH
                 EMBEDDING_ENCODING)) = inr title_chunks
    /\ len_safe_get_embedding env (basename env file_path) model
         EMBEDDING_CTX_LENGTH EMBEDDING_ENCODING
       = inr (title_vectors, title_text)
    /\ List.length title_vectors = List.length title_chunks
    /\ forall r, In r rows ->
         exists c0 v0,
           nth_error title_chunks 0 = Some c0
           /\ title r = decode enc c0
           /\ generate_embeddings env (InputTokens c0) model = inr v0
           /\ title_vector r = json_dumps env v0.
Proof.
  intros H.
  apply process_file_inv in H
    as (t & tvs & tts & cvs & cts & outc & cat & _ & Htitle & _ & _ & _ & Hrows).
  destruct (len_safe_get_embedding_inv _ _ _ _ _ _ _ Htitle)
    as (enc & chunks & He & Hchunks & HF & Htts).
  exists enc, chunks, tvs, tts.
  split; [exact He|]. split; [exact Hchunks|]. split; [exact Htitle|].
  split; [symmetry; eapply Forall2_length; eauto|].
  intros r Hr. apply In_nth_error in Hr as [i Hi].
  destruct (Hrows i r Hi) as (_ & _ & Ht0 & _ & (tv0 & Hv0 & Hdump) & _).
  unfold index in Ht0, Hv0.
  destruct HF as [|c0 v0 chunks vs Hcv _]; subst tts; [discriminate|].
  simpl in Ht0, Hv0. injection Ht0 as Ht0. injection Hv0 as <-.
  exists c0, v0. repeat split; auto.
Qed.

Lemma rows_carry_first_title_chunk_witness :
  exists out rows,
    process_file Demo.env "docs/a.txt" 0 categories embeddings_model
    = (out, inr rows)
    /\ exists enc title_chunks title_vectors title_text,
         tiktoken_get_encoding Demo.env EMBEDDING_ENCODING = inr enc
         /\ fst (list_of (tiktoken_get_encoding Demo.env)
                   (chunked_tokens (basename Demo.env "docs/a.txt")
                      EMBEDDING_CTX_LENGTH EMBEDDING_ENCODING))
            = inr title_chunks
         /\ len_safe_get_embedding Demo.env (basename Demo.env "docs/a.txt")
              embeddings_model EMBEDDING_CTX_LENGTH EMBEDDING_ENCODING
            = inr (title_vectors, title_text)
         /\ List.length title_vectors = List.length title_chunks
         /\ forall r, In r rows ->
              exists c0 v0,
                nth_error title_chunks 0 = Some c0
                /\ title r = decode enc c0
                /\ generate_embeddings Demo.env (InputTokens c0)
                     embeddings_model = inr v0
                /\ title_vector r = json_dumps Demo.env v0.
Proof.
  pose (run := process_file Demo.env "docs/a.txt" 0 categories
                 embeddings_model).
  assert (H : run = (fst run, inr (rows_of (0, snd run))))
    by (vm_compute; reflexivity).
  exists (fst run), (rows_of (0, snd run)). split; [exact H|].
  exact (rows_carry_first_title_chunk Demo.env "docs/a.txt" 0 categories
           embeddings_model _ _ H).
Defined.

(** A title of two chunks: both are embedded, the rows carry the first. *)
Example long_title_keeps_first_chunk :
  let title_result :=
    len_safe_get_embedding Demo.env_wide "a.pdf" embeddings_model
      EMBEDDING_CTX_LENGTH EMBEDDING_ENCODING in
  let rows :=
    snd (process_file Demo.env_wide "a.pdf" 0 categories embeddings_model) in
  match title_result, rows with
  | inr (title_vectors, title_text), inr rows =>
      List.length title_vectors = 2
      /\ List.length title_text = 2
      /\ List.length rows = 7
      /\ forallb (fun r =>
                    match nth_error title_text 0, nth_error title_vectors 0 with
                    | Some t0, Some v0 =>
                        String.eqb (title r) t0
                        && String.eqb (title_vector r) (Demo.dumps v0)
                    | _, _ => false
                    end) rows = true
  | _, _ => False
  end.
Proof. vm_compute. repeat split. Qed.

(** * The collection loop *)

Lemma collect_fold (completed : list future) :
  forall data out,
    fold_left collect_one completed (data, out)
    = (data ++ flat_map rows_of completed,
       out ++ flat_map report_of completed).
Proof.
  induction completed as [|f completed IH]; intros data out.
  - simpl. now rewrite !app_nil_r.
  - cbn [fold_left flat_map].
    unfold collect_one at 2, rows_of at 1, report_of at 1.
    destruct (snd f) as [e|result]; rewrite IH;
      cbn [app]; now rewrite <- ?app_assoc.
Qed.

Lemma collect_spec (completed : list future) :
  collect completed
  = (flat_map rows_of completed, flat_map report_of completed).
Proof. unfold collect. now rewrite collect_fold. Qed.

Lemma submitted env files idx file_path :
  nth_error files idx = Some file_path ->
  In (idx, snd (process_file env file_path idx categories embeddings_model))
     (submit_all env files).
Proof.
  intros H. unfold submit_all.
  apply (in_map (fun '(idx, file_path) =>
                   (idx, snd (process_file env file_path idx categories
                                embeddings_model)))
           (enumerate files) (idx, file_path)).
  exact (nth_error_enumerate files 0 idx file_path H).
Qed.

Lemma process_file_chunk_ordered env file_path idx cats model out rows :
  process_file env file_path idx cats model = (out, inr rows) ->
  chunk_ordered env file_path idx model rows.
Proof.
  intros H.
  apply process_file_inv in H
    as (t & tvs & tts & cvs & cts & outc & cat & Hdoc & _ & Hc & _ & Hlen
        & Hrows).
  exists t, cvs, cts. repeat split; try assumption;
    destruct (Hrows i r H) as (Hid & _ & _ & Htext & _ & Hcv & _);
    assumption.
Qed.

(** C6: whatever the order in which the workers finish, the collection
    loop handles every document.  A document whose processing raised is
    reported by the loop and nothing else happens; a document whose
    processing raised nothing has its rows in the collection, complete,
    contiguous and in chunk order; and the collection holds exactly the rows
    of the documents that raised nothing. *)
Theorem bulk_processing_isolates_failures
    (env : Env) (files : list string) (completed : list future)
    (idx : nat) (file_path : string) :
  Permutation completed (submit_all env files) ->
  nth_error files idx = Some file_path ->
  let '(data, out) := collect completed in
  Permutation data (flat_map rows_of (submit_all env files))
  /\ match snd (process_file env file_path idx categories embeddings_model)
     with
     | inr rows =>
         (exists before after, data = before ++ rows ++ after)
         /\ chunk_ordered env file_path idx embeddings_model rows
     | inl e => In ("Error processing file: " ++ str_exn e)%string out
     end.
Proof.
  intros Hperm Hfile. rewrite collect_spec. split.
  - now apply Permutation_flat_map.
  - pose proof (submitted env files idx file_path Hfile) as Hin.
    apply (Permutation_in _ (Permutation_sym Hperm)) in Hin.
    destruct (process_file env file_path idx categories embeddings_model)
      as [o [e|rows]] eqn:Hrun; cbn [snd] in *.
    + apply in_flat_map. exists (idx, inl e). split; [exact Hin|].
      now left.
    + split.
      * apply in_split in Hin as (l1 & l2 & ->).
        exists (flat_map rows_of l1), (flat_map rows_of l2).
        now rewrite flat_map_app.
      * eapply process_file_chunk_ordered; eauto.
Qed.

Lemma bulk_processing_isolates_failures_witness :
  let futures := submit_all Demo.env Demo.files_one_missing in
  let completed := rev futures in
  Permutation completed futures
  /\ nth_error Demo.files_one_missing 1 = Some "docs/missing.txt"
  /\ let '(data, out) := collect completed in
     Permutation data (flat_map rows_of futures)
     /\ match snd (process_file Demo.env "docs/missing.txt" 1 categories
                     embeddings_model) with
        | inr rows =>
            (exists before after, data = before ++ rows ++ after)
            /\ chunk_ordered Demo.env "docs/missing.txt" 1 embeddings_model
                 rows
        | inl e => In ("Error processing file: " ++ str_exn e)%string out
        end.
Proof.
  cbv zeta.
  assert (Hperm : Permutation
                    (rev (submit_all Demo.env Demo.files_one_missing))
                    (submit_all Demo.env Demo.files_one_missing))
    by (apply Permutation_sym, Permutation_rev).
  split; [exact Hperm|]. split; [reflexivity|].
  exact (bulk_processing_isolates_failures Demo.env Demo.files_one_missing
           _ 1 "docs/missing.txt" Hperm eq_refl).
Defined.

(** The scenario of the specification.  Three files; the classification of
    the second raises a service error.  The workers finish in the order
    3, 1, 2.  All three documents yield their rows, the second with no
    category; the failure is reported by [categorize_text] on the worker's
    output, and the collection loop has nothing to report. *)
Example three_files_second_fails_classification :
  let run i path :=
    process_file Demo.env_flaky path i categories embeddings_model in
  let completed :=
    [(2, snd (run 2 "docs/c.txt")); (0, snd (run 0 "docs/a.txt"));
     (1, snd (run 1 "docs/b.txt"))] in
  Permutation completed (submit_all Demo.env_flaky Demo.files)
  /\ map (fun r => (id r, text r, category r)) (fst (collect completed))
     = [("2_0", "three", Some "tools"); ("0_0", "one", Some "tools");
        ("1_0", "two", None)]
  /\ snd (collect completed) = []
  /\ In "Error categorizing text: Connection error."
        (fst (run 1 "docs/b.txt")).
Proof.
  cbv zeta. split.
  - change (submit_all Demo.env_flaky Demo.files)
      with [(0, snd (process_file Demo.env_flaky "docs/a.txt" 0 categories
                       embeddings_model));
            (1, snd (process_file Demo.env_flaky "docs/b.txt" 1 categories
                       embeddings_model));
            (2, snd (process_file Demo.env_flaky "docs/c.txt" 2 categories
                       embeddings_model))].
    apply (Permutation_cons_app [_; _] []). apply Permutation_refl.
  - split; [vm_compute; reflexivity|]. split; [vm_compute; reflexivity|].
    vm_compute. tauto.
Qed.

(** * Classification failures *)

Lemma len_safe_get_embedding_with_chat env chat :
  len_safe_get_embedding (with_chat env chat) = len_safe_get_embedding env.
Proof. reflexivity. Qed.

Lemma extract_text_from_pdf_with_chat env chat :
  extract_text_from_pdf (with_chat env chat) = extract_text_from_pdf env.
Proof. reflexivity. Qed.

Lemma append_row_with_chat env chat :
  append_row (with_chat env chat) = append_row env.
Proof. reflexivity. Qed.

Lemma categorize_text_failing env text cats e :
  chat_completions_create (openai_client env) "gpt-4o"
    (categorize_messages text cats) = inl e ->
  categorize_text env text cats
  = ([("Error categorizing text: " ++ str_exn e)%string], inr None).
Proof.
  intros He. unfold categorize_text.
  change [ {| role := "system"; content := categorize_prompt cats |};
           {| role := "user"; content := text |} ]
    with (categorize_messages text cats).
  rewrite He. reflexivity.
Qed.

(** The row loop run with two categories: same errors, same rows up to the
    category column. *)
Lemma append_rows_uncategorized env file_name idx tvs tts cvs cts cat items :
  forall data data',
    data = map (with_category None) data' ->
    same_but_uncategorized
      (snd (for_io (append_row env file_name idx tvs tts cvs cts None)
              items data))
      (snd (for_io (append_row env file_name idx tvs tts cvs cts cat)
              items data')).
Proof.
  induction items as [|[i cv] items IH]; intros data data' Hdata.
  - simpl. exact Hdata.
  - cbn [for_io]. rewrite !snd_io_bind.
    unfold append_row at 1 3.
    rewrite !snd_io_bind. cbn [IO.lift snd].
    destruct (index tts 0) as [e|title0]; [reflexivity|].
    rewrite !snd_io_bind. cbn [IO.lift snd].
    destruct (index cts i) as [e|text_i]; [reflexivity|].
    rewrite !snd_io_bind. cbn [IO.lift snd].
    destruct (index tvs 0) as [e|tv0]; [reflexivity|].
    rewrite !snd_io_bind. cbn [IO.print IO.ret snd].
    apply IH. subst data. rewrite map_app. reflexivity.
Qed.

Lemma document_text_fun env file_path t t' :
  document_text env file_path t -> document_text env file_path t' -> t = t'.
Proof.
  unfold document_text.
  intros [[H1 H2]|(H1 & H2 & H3)] [[H1' H2']|(H1' & H2' & H3')]; congruence.
Qed.

Lemma process_file_uncategorized env chat file_path idx cats model
    t cvs cts e :
  document_text env file_path t ->
  len_safe_get_embedding env t model EMBEDDING_CTX_LENGTH EMBEDDING_ENCODING
  = inr (cvs, cts) ->
  chat_completions_create (openai_client env) "gpt-4o"
    (categorize_messages (String.concat " " cts) cats) = inl e ->
  same_but_uncategorized
    (snd (process_file env file_path idx cats model))
    (snd (process_file (with_chat env chat) file_path idx cats model)).
Proof.
  intros Hdoc Hcontent Hfail. unfold process_file.
  rewrite !len_safe_get_embedding_with_chat,
    extract_text_from_pdf_with_chat, append_row_with_chat.
  change (basename (with_chat env chat)) with (basename env).
  change (read_text (with_chat env chat)) with (read_text env).
  set (file_name := basename env file_path) in *.
  rewrite ?snd_io_bind. cbn [IO.print snd].
  rewrite ?snd_io_bind.
  match goal with
  | |- context [snd ?m] =>
      match m with
      | (if _ then _ else _) => set (reading := m)
      end
  end.
  assert (Hread : snd reading = inr (Some t)).
  { subst reading.
    destruct Hdoc as [[Htxt Hr]|(Htxt & Hpdf & Hr)].
    - fold file_name in Htxt. rewrite Htxt, Hr. reflexivity.
    - fold file_name in Htxt, Hpdf. rewrite Htxt, Hpdf, Hr. reflexivity. }
  rewrite Hread.
  rewrite ?snd_io_bind. cbn [IO.lift snd].
  destruct (len_safe_get_embedding env file_name model _ _)
    as [e'|[tvs tts]]; [reflexivity|].
  rewrite ?snd_io_bind. cbn [IO.print snd].
  rewrite ?snd_io_bind. cbn [IO.ret snd].
  rewrite ?snd_io_bind. cbn [IO.lift snd]. rewrite Hcontent.
  rewrite ?snd_io_bind. cbn [IO.print snd].
  rewrite ?snd_io_bind.
  rewrite (categorize_text_failing env _ cats e Hfail). cbn [snd].
  destruct (categorize_text_returns (with_chat env chat)
              (String.concat " " cts) cats) as (o2 & cat & Hcat).
  rewrite Hcat. cbn [snd].
  rewrite ?snd_io_bind. cbn [IO.print snd].
  now apply append_rows_uncategorized.
Qed.

(** What a successful run of [process_file] printed and returned for the
    classification. *)
Lemma process_file_categorization env file_path idx cats model out rows :
  process_file env file_path idx cats model = (out, inr rows) ->
  exists t cvs cts printed cat,
    document_text env file_path t
    /\ len_safe_get_embedding env t model
         EMBEDDING_CTX_LENGTH EMBEDDING_ENCODING = inr (cvs, cts)
    /\ categorize_text env (String.concat " " cts) cats = (printed, inr cat)
    /\ incl printed out
    /\ Forall (fun r => category r = cat) rows.
Proof.
  intros H.
  destruct (process_file_inv _ _ _ _ _ _ _ H)
    as (t & tvs & tts & cvs & cts & outc & cat & Hdoc & _ & Hcontent & Hcat
        & _ & Hrows).
  exists t, cvs, cts, outc, cat.
  split; [exact Hdoc|]. split; [exact Hcontent|]. split; [exact Hcat|].
  split.
  - unfold process_file in H.
    apply io_bind_inr in H as (o1 & u1 & o2 & _ & H & ->).
    apply io_bind_inr in H as (o3 & text & o4 & Htext & H & ->).
    apply io_bind_inr in H as (o5 & [tvs' tts'] & o6 & _ & H & ->).
    apply io_bind_inr in H as (o7 & u2 & o8 & _ & H & ->).
    apply io_bind_inr in H as (o9 & t' & o10 & Ht & H & ->).
    apply io_bind_inr in H as (o11 & [cvs' cts'] & o12 & Hc & H & ->).
    apply io_lift_inr in Hc.
    apply io_bind_inr in H as (o13 & u3 & o14 & _ & H & ->).
    apply io_bind_inr in H as (o15 & cat' & o16 & Hcat' & _ & ->).
    assert (t' = t).
    { destruct text as [t0|]; [|discriminate].
      unfold IO.ret in Ht. injection Ht as _ ->.
      apply (document_text_fun env file_path); [|exact Hdoc].
      unfold document_text.
      destruct (endswith (basename env file_path) ".txt") eqn:Htxt.
      - left. split; [reflexivity|].
        apply io_bind_inr in Htext as (p1 & t1 & p2 & Hr & Hret & _).
        apply io_lift_inr in Hr. unfold IO.ret in Hret. congruence.
      - destruct (endswith (basename env file_path) ".pdf") eqn:Hpdf.
        + right. repeat split.
          apply io_bind_inr in Htext as (p1 & t1 & p2 & Hr & Hret & _).
          apply io_lift_inr in Hr. unfold IO.ret in Hret. congruence.
        + unfold IO.ret in Htext. discriminate. }
    subst t'. rewrite Hcontent in Hc. injection Hc as <- <-.
    rewrite Hcat in Hcat'. injection Hcat' as <- <-.
    intros line Hline.
    do 7 (apply in_or_app; right).
    apply in_or_app. left. exact Hline.
  - apply Forall_forall. intros r Hr. apply In_nth_error in Hr as [i Hi].
    now destruct (Hrows i r Hi) as (_ & _ & _ & _ & _ & _ & Hc).
Qed.

(** C9: when the classification request of a text raises an exception [e],
    [categorize_text] catches it, prints it and returns [None].  A document
    whose classification request raises is not aborted by it: the line is
    printed on the worker's output, every row [process_file] returns has
    category [None], and with any other chat service in place of the
    failing one [process_file] raises the same exception or returns the
    same rows up to the category column. *)
Theorem classification_failure_is_swallowed
    (env : Env) (text : string) (cats : list string) (e : exn) :
  chat_completions_create (openai_client env) "gpt-4o"
    (categorize_messages text cats) = inl e ->
  categorize_text env text cats
  = ([("Error categorizing text: " ++ str_exn e)%string], inr None)
  /\ forall file_path idx model t content_vectors content_text,
       document_text env file_path t ->
       len_safe_get_embedding env t model
         EMBEDDING_CTX_LENGTH EMBEDDING_ENCODING
       = inr (content_vectors, content_text) ->
       String.concat " " content_text = text ->
       (forall out rows,
           process_file env file_path idx cats model = (out, inr rows) ->
           Forall (fun r => category r = None) rows
           /\ In ("Error categorizing text: " ++ str_exn e)%string out)
       /\ (forall chat,
             same_but_uncategorized
               (snd (process_file env file_path idx cats model))
               (snd (process_file (with_chat env chat) file_path idx cats
                       model))).
Proof.
  intros Hfail. split; [now apply categorize_text_failing|].
  intros file_path idx model t cvs cts Hdoc Hcontent <-. split.
  - intros out rows H.
    apply process_file_categorization in H
      as (t' & cvs' & cts' & printed & cat & Hdoc' & Hcontent' & Hcat & Hincl
          & Hrows).
    rewrite (document_text_fun _ _ _ _ Hdoc' Hdoc) in Hcontent'.
    rewrite Hcontent in Hcontent'. injection Hcontent' as <- <-.
    rewrite (categorize_text_failing env _ cats e Hfail) in Hcat.
    injection Hcat as <- <-.
    split; [exact Hrows|]. apply Hincl. now left.
  - intros chat.
    now apply (process_file_uncategorized env chat file_path idx cats model
                 t cvs cts e).
Qed.

Lemma classification_failure_is_swallowed_witness :
  chat_completions_create (openai_client Demo.env_flaky) "gpt-4o"
    (categorize_messages "two" categories)
  = inl (APIError "Connection error.")
  /\ document_text Demo.env_flaky "docs/b.txt" "two"
  /\ len_safe_get_embedding Demo.env_flaky "two" embeddings_model
       EMBEDDING_CTX_LENGTH EMBEDDING_ENCODING
     = inr ([[Qmake 346 1; Qmake 3 1]], ["two"])
  /\ categorize_text Demo.env_flaky "two" categories
     = (["Error categorizing text: Connection error."], inr None)
  /\ (forall out rows,
        process_file Demo.env_flaky "docs/b.txt" 1 categories embeddings_model
        = (out, inr rows) ->
        Forall (fun r => category r = None) rows
        /\ In "Error categorizing text: Connection error." out)
  /\ same_but_uncategorized
       (snd (process_file Demo.env_flaky "docs/b.txt" 1 categories
               embeddings_model))
       (snd (process_file (with_chat Demo.env_flaky Demo.chat_ok)
               "docs/b.txt" 1 categories embeddings_model)).
Proof.
  assert (Hfail :
    chat_completions_create (openai_client Demo.env_flaky) "gpt-4o"
      (categorize_messages "two" categories)
    = inl (APIError "Connection error.")) by reflexivity.
  assert (Hdoc : document_text Demo.env_flaky "docs/b.txt" "two")
    by (left; split; reflexivity).
  assert (Hcontent :
    len_safe_get_embedding Demo.env_flaky "two" embeddings_model
      EMBEDDING_CTX_LENGTH EMBEDDING_ENCODING
    = inr ([[Qmake 346 1; Qmake 3 1]], ["two"])) by reflexivity.
  destruct (classification_failure_is_swallowed Demo.env_flaky "two"
              categories (APIError "Connection error.") Hfail) as [H1 H2].
  destruct (H2 "docs/b.txt" 1 embeddings_model "two" _ _ Hdoc Hcontent
              eq_refl) as [H3 H4].
  split; [exact Hfail|]. split; [exact Hdoc|]. split; [exact Hcontent|].
  split; [exact H1|]. split; [exact H3 | apply H4].
Defined.

(** The document of the witness, run: one row, no category, the failure on
    the worker's output. *)
Example classification_down_run :
  process_file Demo.env_down "docs/b.txt" 1 categories embeddings_model
  = (["Processing file 2: b.txt";
      "Generated title embeddings for b.txt";
      "Generated content embeddings for b.txt";
      "Error categorizing text: Connection error.";
      "Categorized b.txt as None";
      "Appended data for chunk 1/1 of b.txt"],
     inr [ {| id := "1_0"; vector_id := "1_0"; title := "b.txt";
              text := "two"; title_vector := "[496/1, 5/1]";
              content_vector := "[346/1, 3/1]"; category := None |} ]).
Proof. vm_compute. reflexivity. Qed.

(** * Further properties of the splitter *)

Lemma length_groups (k : nat) (l : list token) :
  1 <= k -> List.length (groups k l) = (List.length l + k - 1) / k.
Proof.
  intros Hk. induction l as [l IH] using list_length_ind.
  destruct l as [|a l].
  - rewrite groups_nil. simpl. symmetry. apply Nat.div_small. lia.
  - rewrite groups_step by (auto; congruence).
    cbn [List.length]. rewrite IH
      by (apply skipn_shorter; [exact Hk | congruence]).
    rewrite length_skipn. cbn [List.length].
    set (n := List.length l).
    replace (S n + k - 1) with (n + 1 * k) by lia.
    rewrite Nat.div_add by lia.
    destruct (Nat.le_gt_cases (S n) k) as [Hle|Hgt].
    + replace (S n - k) with 0 by lia.
      rewrite (Nat.div_small n k) by lia.
      rewrite (Nat.div_small (0 + k - 1) k) by lia. reflexivity.
    + replace (S n - k + k - 1) with n by lia. lia.
Qed.

Lemma nth_error_groups (k : nat) :
  1 <= k ->
  forall i l,
    i * k < List.length l ->
    nth_error (groups k l) i = Some (firstn k (skipn (i * k) l)).
Proof.
  intros Hk. induction i as [|i IH]; intros l Hi.
  - destruct l as [|a l]; [simpl in Hi; lia|].
    rewrite groups_step by (auto; congruence). reflexivity.
  - destruct l as [|a l]; [simpl in Hi; lia|].
    rewrite groups_step by (auto; congruence).
    cbn [nth_error]. rewrite IH.
    + rewrite skipn_skipn.
      replace (S i * k) with (i * k + k) by lia. reflexivity.
    + rewrite length_skipn. rewrite Nat.mul_succ_l in Hi. lia.
Qed.

(** X1: for [max_tokens = M] with [1 <= M <= sys.maxsize] a text of [N]
    tokens is split into [ceil(N / M)] chunks. *)
Theorem chunk_count
    (get_encoding : string -> exn + Encoding) (enc : Encoding)
    (text : string) (max_tokens : Z) (encoding_name : string) :
  get_encoding encoding_name = inr enc ->
  (1 <= max_tokens <= sys_maxsize)%Z ->
  exists chunks,
    fst (list_of get_encoding (chunked_tokens text max_tokens encoding_name))
    = inr chunks
    /\ Z.of_nat (List.length chunks)
       = ((Z.of_nat (List.length (encode enc text)) + max_tokens - 1)
          / max_tokens)%Z.
Proof.
  intros He HM.
  exists (groups (Z.to_nat max_tokens) (encode enc text)). split.
  - rewrite list_of_chunked_tokens. cbn [fst].
    now apply split_outcome_in_range.
  - rewrite length_groups by lia. rewrite Nat2Z.inj_div.
    rewrite Nat2Z.inj_sub by lia. rewrite Nat2Z.inj_add.
    rewrite Z2Nat.id by lia. reflexivity.
Qed.

Lemma chunk_count_witness :
  Demo.get_encoding "cl100k_base" = inr Demo.byte_encoding
  /\ (1 <= 3 <= sys_maxsize)%Z
  /\ exists chunks,
       fst (list_of Demo.get_encoding
              (chunked_tokens "ABCDEFG" 3 "cl100k_base")) = inr chunks
       /\ Z.of_nat (List.length chunks)
          = ((Z.of_nat (List.length (encode Demo.byte_encoding "ABCDEFG"))
              + 3 - 1) / 3)%Z.
Proof.
  split; [reflexivity|]. split; [unfold sys_maxsize; lia|].
  apply (chunk_count Demo.get_encoding Demo.byte_encoding
           "ABCDEFG" 3 "cl100k_base"); [reflexivity | unfold sys_maxsize; lia].
Defined.

(** X2: for [max_tokens = M] with [1 <= M <= sys.maxsize], chunk
    boundaries fall on the multiples of [M]: the [i]-th chunk is the slice
    [tokens[i*M : (i+1)*M]] of the token sequence, for every [i] with [i*M]
    below the number of tokens. *)
Theorem chunk_is_slice
    (get_encoding : string -> exn + Encoding) (enc : Encoding)
    (text : string) (max_tokens : Z) (encoding_name : string) (i : nat) :
  get_encoding encoding_name = inr enc ->
  (1 <= max_tokens <= sys_maxsize)%Z ->
  (Z.of_nat i * max_tokens < Z.of_nat (List.length (encode enc text)))%Z ->
  exists chunks,
    fst (list_of get_encoding (chunked_tokens text max_tokens encoding_name))
    = inr chunks
    /\ nth_error chunks i
       = Some (firstn (Z.to_nat max_tokens)
                 (skipn (i * Z.to_nat max_tokens) (encode enc text))).
Proof.
  intros He HM Hi.
  exists (groups (Z.to_nat max_tokens) (encode enc text)). split.
  - rewrite list_of_chunked_tokens. cbn [fst].
    now apply split_outcome_in_range.
  - apply nth_error_groups; [lia|]. nia.
Qed.

Lemma chunk_is_slice_witness :
  Demo.get_encoding "cl100k_base" = inr Demo.byte_encoding
  /\ (1 <= 3 <= sys_maxsize)%Z
  /\ (Z.of_nat 2 * 3
      < Z.of_nat (List.length (encode Demo.byte_encoding "ABCDEFG")))%Z
  /\ exists chunks,
       fst (list_of Demo.get_encoding
              (chunked_tokens "ABCDEFG" 3 "cl100k_base")) = inr chunks
       /\ nth_error chunks 2
          = Some (firstn (Z.to_nat 3)
                    (skipn (2 * Z.to_nat 3)
                       (encode Demo.byte_encoding "ABCDEFG"))).
Proof.
  split; [reflexivity|]. split; [unfold sys_maxsize; lia|].
  split; [vm_compute; reflexivity|].
  apply (chunk_is_slice Demo.get_encoding Demo.byte_encoding
           "ABCDEFG" 3 "cl100k_base" 2);
    [reflexivity | unfold sys_maxsize; lia |].
  vm_compute. reflexivity.
Defined.

(** X3: an unknown encoding name makes the split raise the error of
    [tiktoken.get_encoding] at the first step of the iteration, whatever
    [max_tokens] is (also below 1, where the [ValueError] of [batched] is
    never reached), and the embedder raises the same error. *)
Theorem unknown_encoding_raises_first
    (env : Env) (text model : string) (max_tokens : Z)
    (encoding_name : string) (e : exn) :
  tiktoken_get_encoding env encoding_name = inl e ->
  chunked_next (tiktoken_get_encoding env)
    (chunked_tokens text max_tokens encoding_name)
  = (Raise e, ChunkedFinished)
  /\ list_of (tiktoken_get_encoding env)
       (chunked_tokens text max_tokens encoding_name)
     = (inl e, ChunkedFinished)
  /\ len_safe_get_embedding env text model max_tokens encoding_name = inl e.
Proof.
  intros He. split; [|split].
  - simpl. now rewrite He.
  - now apply for_chunks_unknown_encoding.
  - unfold len_safe_get_embedding.
    now rewrite (for_chunks_unknown_encoding _ _ _ _ _ e).
Qed.

Lemma unknown_encoding_raises_first_witness :
  tiktoken_get_encoding Demo.env "bpe"
  = inl (ValueError "Unknown encoding bpe")
  /\ len_safe_get_embedding Demo.env "ABCDEFG" embeddings_model 0 "bpe"
     = inl (ValueError "Unknown encoding bpe").
Proof.
  split; [reflexivity|].
  apply (unknown_encoding_raises_first Demo.env "ABCDEFG" embeddings_model 0
           "bpe" (ValueError "Unknown encoding bpe") eq_refl).
Defined.

(** * Further properties of the embedder *)

Lemma foldM_app {S Y : Type} (body : S -> Y -> exn + S) (l1 l2 : list Y) :
  forall s,
    foldM body (l1 ++ l2) s
    = match foldM body l1 s with
      | inl e => inl e
      | inr s' => foldM body l2 s'
      end.
Proof.
  induction l1 as [|y l1 IH]; intros s; [reflexivity|].
  simpl. destruct (body s y); [reflexivity | apply IH].
Qed.

(** X4: the embedder gives no partial result.  If the request for some
    chunk fails after the requests for all earlier chunks succeeded, the
    call raises the exception of that request. *)
Theorem embedder_aborts_on_first_failure
    (env : Env) (text model : string) (max_tokens : Z)
    (encoding_name : string) (before : list (list token))
    (c : list token) (after : list (list token)) (vs : list vector)
    (e : exn) :
  fst (list_of (tiktoken_get_encoding env)
         (chunked_tokens text max_tokens encoding_name))
  = inr (before ++ c :: after) ->
  Forall2 (embeds env model) before vs ->
  generate_embeddings env (InputTokens c) model = inl e ->
  len_safe_get_embedding env text model max_tokens encoding_name = inl e.
Proof.
  rewrite list_of_chunked_tokens. cbn [fst]. intros Hs HF Hc.
  destruct (split_outcome_ok _ _ _ _ _ Hs) as (enc & He & _ & _).
  unfold len_safe_get_embedding. rewrite for_chunks_chunked_tokens, Hs.
  rewrite foldM_app.
  rewrite (embed_chunks_ok env model encoding_name enc He before vs HF).
  cbn [foldM]. unfold embed_chunk at 1. now rewrite Hc.
Qed.

Lemma embedder_aborts_on_first_failure_witness :
  fst (list_of (tiktoken_get_encoding Faults.env_embed_flaky)
         (chunked_tokens "ABCDEFG" 3 "cl100k_base"))
  = inr ([[65; 66; 67]] ++ [68; 69; 70] :: [[71]])%Z
  /\ Forall2 (embeds Faults.env_embed_flaky embeddings_model)
        [[65; 66; 67]]%Z [[198; 3]]%Q
  /\ generate_embeddings Faults.env_embed_flaky (InputTokens [68; 69; 70]%Z)
        embeddings_model = inl (APIError "Rate limit reached.")
  /\ len_safe_get_embedding Faults.env_embed_flaky "ABCDEFG" embeddings_model
        3 "cl100k_base" = inl (APIError "Rate limit reached.").
Proof.
  assert (HF : Forall2 (embeds Faults.env_embed_flaky embeddings_model)
                 [[65; 66; 67]]%Z [[198; 3]]%Q) by (repeat constructor).
  split; [reflexivity|]. split; [exact HF|]. split; [reflexivity|].
  exact (embedder_aborts_on_first_failure Faults.env_embed_flaky "ABCDEFG"
           embeddings_model 3 "cl100k_base" [[65; 66; 67]]%Z [68; 69; 70]%Z
           [[71]]%Z [[198; 3]]%Q (APIError "Rate limit reached.")
           eq_refl HF eq_refl).
Defined.

Lemma len_safe_get_embedding_no_tokens
    (env : Env) (enc : Encoding) (text model : string) (max_tokens : Z)
    (encoding_name : string) :
  tiktoken_get_encoding env encoding_name = inr enc ->
  (1 <= max_tokens <= sys_maxsize)%Z ->
  encode enc text = [] ->
  len_safe_get_embedding env text model max_tokens encoding_name
  = inr ([], []).
Proof.
  intros He HM Hempty.
  unfold len_safe_get_embedding. rewrite for_chunks_chunked_tokens.
  rewrite (split_outcome_in_range _ _ _ _ enc He HM), Hempty. reflexivity.
Qed.

(** X5: a text without tokens needs no embedding request: for
    [1 <= max_tokens <= sys.maxsize] the embedder returns two empty lists,
    whatever the embedding service would answer. *)
Theorem embedder_on_empty_text
    (env : Env) (enc : Encoding) (text model : string) (max_tokens : Z)
    (encoding_name : string) :
  tiktoken_get_encoding env encoding_name = inr enc ->
  (1 <= max_tokens <= sys_maxsize)%Z ->
  encode enc text = [] ->
  len_safe_get_embedding env text model max_tokens encoding_name
  = inr ([], []).
Proof.
  intros He HM Hempty.
  now apply (len_safe_get_embedding_no_tokens env enc).
Qed.

Lemma embedder_on_empty_text_witness :
  tiktoken_get_encoding Demo.env_down "cl100k_base" = inr Demo.byte_encoding
  /\ (1 <= 3 <= sys_maxsize)%Z
  /\ encode Demo.byte_encoding "" = []
  /\ len_safe_get_embedding Demo.env_down "" embeddings_model 3 "cl100k_base"
     = inr ([], []).
Proof.
  split; [reflexivity|]. split; [unfold sys_maxsize; lia|].
  split; [reflexivity|].
  apply (embedder_on_empty_text Demo.env_down Demo.byte_encoding ""
           embeddings_model 3 "cl100k_base");
    [reflexivity | unfold sys_maxsize; lia | reflexivity].
Defined.

(** * Reading PDF documents *)

Lemma string_app_nil_r (s : string) : (s ++ "")%string = s.
Proof. induction s as [|c s IH]; simpl; congruence. Qed.

Lemma string_app_assoc (a b c : string) :
  ((a ++ b) ++ c)%string = (a ++ (b ++ c))%string.
Proof. induction a as [|x a IH]; simpl; congruence. Qed.

Lemma extract_pages_ok (texts : list string) :
  forall acc,
    foldM (fun text page =>
             (page_text <- page ;; inr (text ++ page_text)%string)%exc)
          (map inr texts) acc
    = inr (acc ++ fold_right String.append "" texts)%string.
Proof.
  induction texts as [|t texts IH]; intros acc; simpl.
  - now rewrite string_app_nil_r.
  - rewrite IH. now rewrite string_app_assoc.
Qed.

(** X6: when every page can be extracted, [extract_text_from_pdf] returns
    the page texts concatenated in page order with nothing between them; a
    PDF without pages gives the empty text. *)
Theorem pdf_text_is_concatenation
    (env : Env) (pdf_path : string) (texts : list string) :
  PdfReader_pages env pdf_path = inr (map inr texts) ->
  extract_text_from_pdf env pdf_path
  = inr (fold_right String.append "" texts).
Proof.
  intros H. unfold extract_text_from_pdf. rewrite H. cbn [Exc.bind].
  now rewrite extract_pages_ok.
Qed.

Lemma pdf_text_is_concatenation_witness :
  PdfReader_pages Demo.env "d.pdf" = inr (map inr ["page one"; " page two"])
  /\ extract_text_from_pdf Demo.env "d.pdf"
     = inr (fold_right String.append "" ["page one"; " page two"]).
Proof.
  split; [reflexivity|].
  apply (pdf_text_is_concatenation Demo.env "d.pdf"
           ["page one"; " page two"] eq_refl).
Defined.

(** X7: when a page cannot be extracted although all pages before it
    could, [extract_text_from_pdf] raises the exception of that page: the
    text of the earlier pages is lost and the pages after it do not
    matter. *)
Theorem pdf_page_failure_propagates
    (env : Env) (pdf_path : string) (texts : list string) (e : exn)
    (rest : list (exn + string)) :
  PdfReader_pages env pdf_path = inr (map inr texts ++ inl e :: rest) ->
  extract_text_from_pdf env pdf_path = inl e.
Proof.
  intros H. unfold extract_text_from_pdf. rewrite H. cbn [Exc.bind].
  rewrite foldM_app, extract_pages_ok. reflexivity.
Qed.

Lemma pdf_page_failure_propagates_witness :
  let pages := inr (map inr ["page one"]
                    ++ inl (OtherError "cannot decode page") :: [inr "three"])
  in
  PdfReader_pages (Faults.env_with_pages pages) "d.pdf" = pages
  /\ extract_text_from_pdf (Faults.env_with_pages pages) "d.pdf"
     = inl (OtherError "cannot decode page").
Proof.
  cbv zeta. split; [reflexivity|].
  apply (pdf_page_failure_propagates
           (Faults.env_with_pages
              (inr (map inr ["page one"]
                    ++ inl (OtherError "cannot decode page")
                       :: [inr "three"])))
           "d.pdf" ["page one"]
           (OtherError "cannot decode page") [inr "three"] eq_refl).
Defined.

(** * Categorisation *)

(** X8: [categorize_text] never raises.  Either the service answered with
    at least one choice, and the function prints nothing and returns the
    content of the first choice as it is, without comparing it with the
    categories; or the service raised or answered without choices, and the
    function prints one line with the exception and returns [None]. *)
Theorem categorize_text_outcomes
    (env : Env) (text : string) (cats : list string) :
  let messages :=
    [ {| role := "system"; content := categorize_prompt cats |};
      {| role := "user"; content := text |} ] in
  let response :=
    chat_completions_create (openai_client env) "gpt-4o" messages in
  (exists first others,
      response = inr (first :: others)
      /\ categorize_text env text cats = ([], inr first))
  \/ (exists e,
        (response = inl e
         \/ (response = inr []
             /\ e = IndexError "list index out of range"))
        /\ categorize_text env text cats
           = ([("Error categorizing text: " ++ str_exn e)%string], inr None)).
Proof.
  cbv zeta. unfold categorize_text.
  destruct (chat_completions_create _ _ _) as [e|[|first others]].
  - right. exists e. split; [now left | reflexivity].
  - right. exists (IndexError "list index out of range").
    split; [now right | reflexivity].
  - left. exists first, others. split; reflexivity.
Qed.

(** * When [process_file] returns rows *)

Lemma append_rows_ok env file_name idx tvs tts cvs cts cat t0 tv0 :
  index tts 0 = inr t0 ->
  index tvs 0 = inr tv0 ->
  forall (l : list vector) k data,
    k + List.length l <= List.length cts ->
    exists rows',
      snd (for_io (append_row env file_name idx tvs tts cvs cts cat)
             (combine (seq k (List.length l)) l) data)
      = inr (data ++ rows')
      /\ List.length rows' = List.length l.
Proof.
  intros Ht0 Htv0.
  induction l as [|cv l IH]; intros k data Hlen.
  - exists []. simpl. now rewrite app_nil_r.
  - cbn [List.length seq combine for_io]. rewrite snd_io_bind.
    unfold append_row at 1.
    rewrite snd_io_bind. cbn [IO.lift snd]. rewrite Ht0.
    rewrite snd_io_bind. cbn [IO.lift snd].
    unfold index at 1.
    destruct (nth_error cts k) as [text_k|] eqn:Hk.
    2:{ apply nth_error_None in Hk. cbn [List.length] in Hlen. lia. }
    rewrite snd_io_bind. cbn [IO.lift snd]. rewrite Htv0.
    rewrite snd_io_bind. cbn [IO.print IO.ret snd].
    match goal with
    | |- context [for_io _ _ (data ++ [?r])] =>
        destruct (IH (S k) (data ++ [r])) as (rows' & Hrows & Hl);
        [cbn [List.length] in Hlen; lia|];
        exists (r :: rows')
    end.
    rewrite Hrows. rewrite <- app_assoc. split; [reflexivity|].
    simpl. now rewrite Hl.
Qed.

Lemma process_file_ok env file_path idx cats model t tvs tts cvs cts :
  document_text env file_path t ->
  len_safe_get_embedding env (basename env file_path) model
    EMBEDDING_CTX_LENGTH EMBEDDING_ENCODING = inr (tvs, tts) ->
  len_safe_get_embedding env t model
    EMBEDDING_CTX_LENGTH EMBEDDING_ENCODING = inr (cvs, cts) ->
  cvs = [] \/ tts <> [] ->
  exists rows,
    snd (process_file env file_path idx cats model) = inr rows
    /\ List.length rows = List.length cvs.
Proof.
  intros Hdoc Htitle Hcontent Hcase.
  unfold process_file.
  set (file_name := basename env file_path) in *.
  rewrite snd_io_bind. cbn [IO.print snd]. rewrite snd_io_bind.
  match goal with
  | |- context [snd ?m] =>
      match m with
      | (if _ then _ else _) => set (reading := m)
      end
  end.
  assert (Hread : snd reading = inr (Some t)).
  { subst reading.
    destruct Hdoc as [[Htxt Hr]|(Htxt & Hpdf & Hr)].
    - fold file_name in Htxt. rewrite Htxt, Hr. reflexivity.
    - fold file_name in Htxt, Hpdf. rewrite Htxt, Hpdf, Hr. reflexivity. }
  rewrite Hread.
  rewrite snd_io_bind. cbn [IO.lift snd]. rewrite Htitle.
  rewrite snd_io_bind. cbn [IO.print snd].
  rewrite snd_io_bind. cbn [IO.ret snd].
  rewrite snd_io_bind. cbn [IO.lift snd]. rewrite Hcontent.
  rewrite snd_io_bind. cbn [IO.print snd].
  rewrite snd_io_bind.
  destruct (categorize_text_returns env (String.concat " " cts) cats)
    as (outc & cat & Hcat).
  rewrite Hcat. cbn [snd].
  rewrite snd_io_bind. cbn [IO.print snd].
  destruct (len_safe_get_embedding_inv _ _ _ _ _ _ _ Htitle)
    as (enc & tchunks & _ & _ & HFt & Htts).
  destruct (len_safe_get_embedding_inv _ _ _ _ _ _ _ Hcontent)
    as (enc' & cchunks & _ & _ & HFc & Hcts).
  destruct Hcase as [->|Hne].
  - exists []. split; reflexivity.
  - destruct HFt as [|c0 v0 tchunks tvs' _ _]; subst tts;
      [exfalso; apply Hne; reflexivity|].
    unfold enumerate.
    destruct (append_rows_ok env file_name idx (v0 :: tvs')
                (map (decode enc) (c0 :: tchunks)) cvs cts cat
                (decode enc c0) v0 eq_refl eq_refl cvs 0 [])
      as (rows & Hrows & Hl).
    + subst cts. rewrite length_map.
      apply Forall2_length in HFc. simpl. lia.
    + exists rows. split; [exact Hrows | exact Hl].
Qed.

(** X9: [process_file] returns rows exactly when the document is a [.txt]
    or [.pdf] file that can be read, its title and its text are embedded
    without error, and the title has at least one chunk unless the text has
    none.  The classification service has no part in it. *)
Theorem process_file_returns_rows_iff
    (env : Env) (file_path : string) (idx : nat) (cats : list string)
    (model : string) :
  (exists rows, snd (process_file env file_path idx cats model) = inr rows)
  <-> (exists t title_vectors title_text content_vectors content_text,
          document_text env file_path t
          /\ len_safe_get_embedding env (basename env file_path) model
               EMBEDDING_CTX_LENGTH EMBEDDING_ENCODING
             = inr (title_vectors, title_text)
          /\ len_safe_get_embedding env t model
               EMBEDDING_CTX_LENGTH EMBEDDING_ENCODING
             = inr (content_vectors, content_text)
          /\ (content_vectors = [] \/ title_text <> [])).
Proof.
  split.
  - intros [rows Hrows].
    destruct (process_file env file_path idx cats model) as [out r] eqn:Hrun.
    cbn [snd] in Hrows. subst r.
    apply process_file_inv in Hrun
      as (t & tvs & tts & cvs & cts & outc & cat & Hdoc & Htitle & Hcontent
          & _ & Hlen & Hrow).
    exists t, tvs, tts, cvs, cts. repeat split; try assumption.
    destruct cvs as [|cv cvs]; [now left|]. right.
    destruct rows as [|r rows]; [discriminate|].
    destruct (Hrow 0 r eq_refl) as (_ & _ & Ht0 & _).
    intros ->. discriminate.
  - intros (t & tvs & tts & cvs & cts & Hdoc & Htitle & Hcontent & Hcase).
    destruct (process_file_ok env file_path idx cats model t tvs tts cvs cts
                Hdoc Htitle Hcontent Hcase) as (rows & Hrows & _).
    now exists rows.
Qed.

Lemma process_file_returns_rows_iff_witness :
  (exists rows,
      snd (process_file Demo.env_down "docs/a.txt" 0 categories
             embeddings_model) = inr rows)
  /\ (exists t title_vectors title_text content_vectors content_text,
         document_text Demo.env_down "docs/a.txt" t
         /\ len_safe_get_embedding Demo.env_down
              (basename Demo.env_down "docs/a.txt") embeddings_model
              EMBEDDING_CTX_LENGTH EMBEDDING_ENCODING
            = inr (title_vectors, title_text)
         /\ len_safe_get_embedding Demo.env_down t embeddings_model
              EMBEDDING_CTX_LENGTH EMBEDDING_ENCODING
            = inr (content_vectors, content_text)
         /\ (content_vectors = [] \/ title_text <> [])).
Proof.
  assert (H : exists rows,
             snd (process_file Demo.env_down "docs/a.txt" 0 categories
                    embeddings_model) = inr rows)
    by (eexists; vm_compute; reflexivity).
  split; [exact H|].
  exact (proj1 (process_file_returns_rows_iff Demo.env_down "docs/a.txt" 0
                  categories embeddings_model) H).
Defined.

(** X10: on a file that is neither [.txt] nor [.pdf], [process_file] still
    embeds the title and then raises [UnboundLocalError], because no branch
    has set [text]; if embedding the title fails, that exception is raised
    instead.  Nothing is read, classified or returned. *)
Theorem unsupported_extension_raises
    (env : Env) (file_path : string) (idx : nat) (cats : list string)
    (model : string) :
  let file_name := basename env file_path in
  endswith file_name ".txt" = false ->
  endswith file_name ".pdf" = false ->
  process_file env file_path idx cats model
  = match len_safe_get_embedding env file_name model
            EMBEDDING_CTX_LENGTH EMBEDDING_ENCODING with
    | inr _ =>
        ([("Processing file " ++ str_nat (idx + 1) ++ ": " ++ file_name)%string;
          ("Generated title embeddings for " ++ file_name)%string],
         inl (UnboundLocalError
                "cannot access local variable 'text' where it is not associated with a value"))
    | inl e =>
        ([("Processing file " ++ str_nat (idx + 1) ++ ": "
           ++ file_name)%string],
         inl e)
    end.
Proof.
  intros file_name Htxt Hpdf. unfold process_file.
  fold file_name. rewrite Htxt, Hpdf.
  destruct (len_safe_get_embedding env file_name model _ _)
    as [e|[tvs tts]]; reflexivity.
Qed.

Lemma unsupported_extension_raises_witness :
  endswith (basename Demo.env "docs/notes.md") ".txt" = false
  /\ endswith (basename Demo.env "docs/notes.md") ".pdf" = false
  /\ process_file Demo.env "docs/notes.md" 4 categories embeddings_model
     = (["Processing file 5: notes.md";
         "Generated title embeddings for notes.md"],
        inl (UnboundLocalError
               "cannot access local variable 'text' where it is not associated with a value")).
Proof.
  split; [reflexivity|]. split; [reflexivity|].
  exact (unsupported_extension_raises Demo.env "docs/notes.md" 4 categories
           embeddings_model eq_refl eq_refl).
Defined.

(** X11: a document whose text has no tokens yields no rows and no error,
    provided its title can be embedded: it leaves no trace in the output
    table. *)
Theorem empty_document_yields_no_rows
    (env : Env) (enc : Encoding) (file_path : string) (idx : nat)
    (cats : list string) (model : string) (t : string)
    (title_vectors : list vector) (title_text : list string) :
  tiktoken_get_encoding env EMBEDDING_ENCODING = inr enc ->
  document_text env file_path t ->
  encode enc t = [] ->
  len_safe_get_embedding env (basename env file_path) model
    EMBEDDING_CTX_LENGTH EMBEDDING_ENCODING
  = inr (title_vectors, title_text) ->
  snd (process_file env file_path idx cats model) = inr [].
Proof.
  intros He Hdoc Hempty Htitle.
  assert (Hcontent :
    len_safe_get_embedding env t model EMBEDDING_CTX_LENGTH
      EMBEDDING_ENCODING = inr ([], [])).
  { apply (len_safe_get_embedding_no_tokens env enc); auto.
    unfold EMBEDDING_CTX_LENGTH, sys_maxsize. lia. }
  destruct (process_file_ok env file_path idx cats model t title_vectors
              title_text [] [] Hdoc Htitle Hcontent (or_introl eq_refl))
    as (rows & Hrows & Hlen).
  destruct rows; [exact Hrows | discriminate].
Qed.

Lemma empty_document_yields_no_rows_witness :
  let env := Faults.env_with_pages (inr []) in
  tiktoken_get_encoding env EMBEDDING_ENCODING = inr Demo.byte_encoding
  /\ document_text env "docs/blank.pdf" ""
  /\ encode Demo.byte_encoding "" = []
  /\ len_safe_get_embedding env (basename env "docs/blank.pdf")
        embeddings_model EMBEDDING_CTX_LENGTH EMBEDDING_ENCODING
      = inr ([[880; 9]]%Q, ["blank.pdf"])
  /\ snd (process_file env "docs/blank.pdf" 0 categories embeddings_model)
      = inr [].
Proof.
  cbv zeta.
  assert (Hdoc : document_text (Faults.env_with_pages (inr []))
                   "docs/blank.pdf" "")
    by (right; repeat split).
  split; [reflexivity|]. split; [exact Hdoc|]. split; [reflexivity|].
  split; [reflexivity|].
  exact (empty_document_yields_no_rows (Faults.env_with_pages (inr []))
           Demo.byte_encoding "docs/blank.pdf" 0 categories embeddings_model
           "" [[880; 9]]%Q ["blank.pdf"] eq_refl Hdoc eq_refl eq_refl).
Defined.

(** X14: the document is classified once, from the decoded texts of its
    chunks joined by blanks, and every row of the document carries that
    one category; on every row [vector_id] equals [id]. *)
Theorem rows_share_one_category
    (env : Env) (file_path : string) (idx : nat) (cats : list string)
    (model : string) (out : list string) (rows : list row) :
  process_file env file_path idx cats model = (out, inr rows) ->
  exists t content_vectors content_text printed cat,
    document_text env file_path t
    /\ len_safe_get_embedding env t model
         EMBEDDING_CTX_LENGTH EMBEDDING_ENCODING
       = inr (content_vectors, content_text)
    /\ categorize_text env (String.concat " " content_text) cats
       = (printed, inr cat)
    /\ Forall (fun r => category r = cat /\ vector_id r = id r) rows.
Proof.
  intros H.
  apply process_file_inv in H
    as (t & tvs & tts & cvs & cts & outc & cat & Hdoc & _ & Hcontent & Hcat
        & _ & Hrows).
  exists t, cvs, cts, outc, cat. repeat split; try assumption.
  apply Forall_forall. intros r Hr. apply In_nth_error in Hr as [i Hi].
  destruct (Hrows i r Hi) as (Hid & Hvid & _ & _ & _ & _ & Hc).
  split; [exact Hc | congruence].
Qed.

Lemma rows_share_one_category_witness :
  exists out rows,
    process_file Demo.env "docs/a.txt" 0 categories embeddings_model
    = (out, inr rows)
    /\ exists t content_vectors content_text printed cat,
         document_text Demo.env "docs/a.txt" t
         /\ len_safe_get_embedding Demo.env t embeddings_model
              EMBEDDING_CTX_LENGTH EMBEDDING_ENCODING
            = inr (content_vectors, content_text)
         /\ categorize_text Demo.env (String.concat " " content_text)
              categories = (printed, inr cat)
         /\ Forall (fun r => category r = cat /\ vector_id r = id r) rows.
Proof.
  pose (run := process_file Demo.env "docs/a.txt" 0 categories
                 embeddings_model).
  assert (H : run = (fst run, inr (rows_of (0, snd run))))
    by (vm_compute; reflexivity).
  exists (fst run), (rows_of (0, snd run)). split; [exact H|].
  exact (rows_share_one_category Demo.env "docs/a.txt" 0 categories
           embeddings_model _ _ H).
Defined.

(** * The identifiers of the rows *)

Lemma uint_string_no_underscore (d : Decimal.uint) :
  ~ In "_"%char (list_ascii_of_string (NilEmpty.string_of_uint d)).
Proof.
  induction d; simpl; [tauto | intros [H|H]; [discriminate | auto] ..].
Qed.

Lemma str_nat_no_underscore (n : nat) :
  ~ In "_"%char (list_ascii_of_string (str_nat n)).
Proof.
  unfold str_nat, NilZero.string_of_uint.
  destruct (Nat.to_uint n) eqn:Hd;
    try (rewrite <- Hd; fail);
    try apply uint_string_no_underscore.
  simpl. intros [H|[]]. discriminate.
Qed.

Lemma to_uint_not_nil (n : nat) : Nat.to_uint n <> Decimal.Nil.
Proof.
  intros H. pose proof (DecimalNat.Unsigned.of_to n) as Hn. rewrite H in Hn.
  simpl in Hn. subst n. discriminate.
Qed.

Lemma str_nat_inj (a b : nat) : str_nat a = str_nat b -> a = b.
Proof.
  unfold str_nat. intros H.
  apply DecimalNat.Unsigned.to_uint_inj.
  pose proof (NilZero.usu _ (to_uint_not_nil a)) as Ha.
  pose proof (NilZero.usu _ (to_uint_not_nil b)) as Hb.
  rewrite H in Ha. congruence.
Qed.

Lemma split_at_underscore (s1 : string) :
  forall s2 t1 t2,
    ~ In "_"%char (list_ascii_of_string s1) ->
    ~ In "_"%char (list_ascii_of_string s2) ->
    (s1 ++ "_" ++ t1 = s2 ++ "_" ++ t2)%string ->
    s1 = s2 /\ t1 = t2.
Proof.
  induction s1 as [|c s1 IH]; intros [|c' s2] t1 t2 H1 H2 H; simpl in *.
  - injection H as <-. auto.
  - injection H as <- _. exfalso. apply H2. now left.
  - injection H as -> _. exfalso. apply H1. now left.
  - injection H as <- H.
    destruct (IH s2 t1 t2) as [-> ->]; auto.
Qed.

Lemma row_key_inj (p q : nat * nat) : row_key p = row_key q -> p = q.
Proof.
  destruct p as [a b], q as [c d]. unfold row_key. cbn [fst snd]. intros H.
  apply split_at_underscore in H as [Hac Hbd];
    try apply str_nat_no_underscore.
  apply str_nat_inj in Hac, Hbd. congruence.
Qed.

Lemma map_by_position {A B : Type} (g : A -> B) (l : list A) :
  forall (f : nat -> B),
    (forall i a, nth_error l i = Some a -> g a = f i) ->
    map g l = map f (seq 0 (List.length l)).
Proof.
  induction l as [|a l IH]; intros f Hf; [reflexivity|].
  cbn [List.length seq map]. f_equal.
  - apply (Hf 0 a eq_refl).
  - rewrite <- seq_shift, map_map. apply IH.
    intros i b Hi. apply (Hf (S i) b Hi).
Qed.

Lemma submitted_inv env files f :
  In f (submit_all env files) ->
  exists file_path,
    nth_error files (fst f) = Some file_path
    /\ snd f = snd (process_file env file_path (fst f) categories
                      embeddings_model).
Proof.
  unfold submit_all, enumerate. intros H.
  apply in_map_iff in H as ([idx file_path] & <- & Hin).
  exists file_path. cbn [fst snd]. split; [|reflexivity].
  assert (Hgen : forall (l : list string) k i p,
             In (i, p) (combine (seq k (List.length l)) l) ->
             k <= i /\ nth_error l (i - k) = Some p).
  { induction l as [|x l IH]; intros k i p Hl; [destruct Hl|].
    cbn [List.length seq combine] in Hl. destruct Hl as [Heq|Hl].
    - injection Heq as <- <-. rewrite Nat.sub_diag. auto.
    - apply IH in Hl as [Hle Hnth]. split; [lia|].
      replace (i - k) with (S (i - S k)) by lia. exact Hnth. }
  apply Hgen in Hin as [_ Hnth]. now rewrite Nat.sub_0_r in Hnth.
Qed.

Lemma map_fst_submit_all env files :
  map fst (submit_all env files) = seq 0 (List.length files).
Proof.
  unfold submit_all, enumerate. rewrite map_map.
  assert (Hgen : forall (l : list string) k,
             map (fun x : nat * string =>
                    fst (let '(idx, file_path) := x in
                         (idx, snd (process_file env file_path idx categories
                                      embeddings_model))))
                 (combine (seq k (List.length l)) l)
             = seq k (List.length l)).
  { induction l as [|x l IH]; intros k; [reflexivity|].
    cbn [List.length seq combine map fst]. now rewrite IH. }
  apply Hgen.
Qed.

Lemma ids_of_future env files f :
  In f (submit_all env files) ->
  map id (rows_of f)
  = map row_key (map (pair (fst f)) (seq 0 (List.length (rows_of f)))).
Proof.
  intros Hin. apply submitted_inv in Hin as (file_path & _ & Hrun).
  rewrite map_map. apply map_by_position. intros i r Hi.
  unfold rows_of in Hi. rewrite Hrun in Hi.
  destruct (process_file env file_path (fst f) categories embeddings_model)
    as [out [e|rows]] eqn:Hp; cbn [snd] in Hi; [destruct i; discriminate|].
  apply process_file_inv in Hp
    as (t & tvs & tts & cvs & cts & outc & cat & _ & _ & _ & _ & _ & Hrows).
  now destruct (Hrows i r Hi) as (Hid & _).
Qed.

Lemma NoDup_map_injective {A B : Type} (f : A -> B) (l : list A) :
  (forall x y, f x = f y -> x = y) -> NoDup l -> NoDup (map f l).
Proof.
  intros Hinj. induction 1 as [|a l Hnotin _ IH]; [constructor|].
  cbn [map]. constructor; [|exact IH].
  intros Hin. apply in_map_iff in Hin as (b & Hb & Hin).
  apply Hinj in Hb. now subst b.
Qed.

Lemma NoDup_flat_map_tagged {A B : Type} (tag : A -> nat)
    (g : A -> list (nat * B)) (l : list A) :
  NoDup (map tag l) ->
  (forall a, In a l -> NoDup (g a)) ->
  (forall a p, In p (g a) -> fst p = tag a) ->
  NoDup (flat_map g l).
Proof.
  induction l as [|a l IH]; intros Hnd Hg Htag; [constructor|].
  cbn [flat_map map] in *. inversion Hnd as [|? ? Hnotin Hnd']; subst.
  apply NoDup_app.
  - apply Hg. now left.
  - apply IH; auto. intros b Hb. apply Hg. now right.
  - intros p Hp Hp'. apply in_flat_map in Hp' as (b & Hb & Hpb).
    apply Hnotin. apply in_map_iff. exists b. split; [|exact Hb].
    rewrite <- (Htag a p Hp). symmetry. now apply Htag.
Qed.

Lemma flat_map_map_in {A B C : Type} (g : B -> C) (f f' : A -> list B)
    (h : A -> list C) (l : list A) :
  (forall a, In a l -> map g (f a) = h a) ->
  map g (flat_map f l) = flat_map h l.
Proof.
  induction l as [|a l IH]; intros H; [reflexivity|].
  cbn [flat_map]. rewrite map_app, (H a) by now left.
  f_equal. apply IH. intros b Hb. apply H. now right.
Qed.

Lemma submitted_ids_unique env files :
  NoDup (map id (flat_map rows_of (submit_all env files))).
Proof.
  set (pairs_of := fun f : future =>
         map (pair (fst f)) (seq 0 (List.length (rows_of f)))).
  rewrite (flat_map_map_in id rows_of rows_of
             (fun f => map row_key (pairs_of f))).
  2:{ intros f Hf. now apply (ids_of_future env files). }
  rewrite <- (flat_map_map_in row_key pairs_of pairs_of
                (fun f => map row_key (pairs_of f)))
    by reflexivity.
  apply NoDup_map_injective.
  - intros p q. apply row_key_inj.
  - apply (NoDup_flat_map_tagged fst).
    + rewrite map_fst_submit_all. apply seq_NoDup.
    + intros f _. apply NoDup_map_injective; [|apply seq_NoDup].
      intros x y H. now injection H.
    + intros f p Hp. apply in_map_iff in Hp as (i & <- & _). reflexivity.
Qed.

(** X12: whatever the order in which the workers finish, no two rows of
    the collection have the same [id]: the identifiers [idx_i] are pairwise
    distinct across documents and chunks. *)
Theorem row_ids_are_unique
    (env : Env) (files : list string) (completed : list future) :
  Permutation completed (submit_all env files) ->
  NoDup (map id (fst (collect completed))).
Proof.
  intros Hperm. rewrite collect_spec. cbn [fst].
  apply (Permutation_NoDup
           (l := map id (flat_map rows_of (submit_all env files)))).
  - apply Permutation_map, Permutation_flat_map, Permutation_sym, Hperm.
  - apply submitted_ids_unique.
Qed.

Lemma row_ids_are_unique_witness :
  Permutation (rev (submit_all Demo.env Demo.files))
    (submit_all Demo.env Demo.files)
  /\ NoDup (map id (fst (collect (rev (submit_all Demo.env Demo.files))))).
Proof.
  assert (Hperm : Permutation (rev (submit_all Demo.env Demo.files))
                    (submit_all Demo.env Demo.files))
    by (apply Permutation_sym, Permutation_rev).
  split; [exact Hperm|].
  exact (row_ids_are_unique Demo.env Demo.files _ Hperm).
Defined.

(** X13: the collection loop prints exactly one line per document whose
    processing raised and none for the others: every line it prints is the
    report of a document that raised, and the number of lines is the number
    of such documents. *)
Theorem one_report_per_failed_document
    (env : Env) (files : list string) (completed : list future) :
  Permutation completed (submit_all env files) ->
  let out := snd (collect completed) in
  Permutation out (flat_map report_of (submit_all env files))
  /\ (forall line, In line out ->
        exists idx file_path e,
          nth_error files idx = Some file_path
          /\ snd (process_file env file_path idx categories embeddings_model)
             = inl e
          /\ line = ("Error processing file: " ++ str_exn e)%string)
  /\ List.length out
     = List.length
         (filter (fun f : future =>
                    match snd f with inl _ => true | inr _ => false end)
            (submit_all env files)).
Proof.
  intros Hperm. cbv zeta. rewrite collect_spec. cbn [snd].
  assert (Hp : Permutation (flat_map report_of completed)
                 (flat_map report_of (submit_all env files)))
    by now apply Permutation_flat_map.
  split; [exact Hp|]. split.
  - intros line Hline.
    apply (Permutation_in _ Hp) in Hline.
    apply in_flat_map in Hline as (f & Hf & Hline).
    destruct (submitted_inv env files f Hf) as (file_path & Hnth & Hrun).
    unfold report_of in Hline. rewrite Hrun in Hline.
    destruct (snd (process_file env file_path (fst f) categories
                     embeddings_model)) as [e|rows] eqn:Hs;
      [|destruct Hline].
    destruct Hline as [<-|[]].
    exists (fst f), file_path, e. auto.
  - rewrite (Permutation_length Hp). clear Hp Hperm.
    induction (submit_all env files) as [|f l IH]; [reflexivity|].
    cbn [flat_map filter]. rewrite length_app, IH.
    unfold report_of. destruct (snd f); reflexivity.
Qed.

Lemma one_report_per_failed_document_witness :
  let futures := submit_all Demo.env Demo.files_one_missing in
  Permutation (rev futures) futures
  /\ snd (collect (rev futures))
     = ["Error processing file: No such file or directory: docs/missing.txt"]
  /\ List.length (snd (collect (rev futures)))
     = List.length
         (filter (fun f : future =>
                    match snd f with inl _ => true | inr _ => false end) futures).
Proof.
  cbv zeta.
  assert (Hperm : Permutation
                    (rev (submit_all Demo.env Demo.files_one_missing))
                    (submit_all Demo.env Demo.files_one_missing))
    by (apply Permutation_sym, Permutation_rev).
  split; [exact Hperm|]. split; [vm_compute; reflexivity|].
  apply (one_report_per_failed_document Demo.env Demo.files_one_missing _
           Hperm).
Defined.

(** * Loading the rows into the table *)

Lemma string_length_app (s t : string) :
  String.length (s ++ t) = String.length s + String.length t.
Proof. induction s as [|c s IH]; simpl; congruence. Qed.

Lemma substring_prefix (s t : string) :
  substring 0 (String.length s) (s ++ t) = s.
Proof.
  induction s as [|c s IH]; simpl.
  - now destruct t.
  - now rewrite IH.
Qed.

Lemma strip_ends_brackets (s : string) :
  strip_ends ("[" ++ s ++ "]") = s.
Proof.
  unfold strip_ends. cbn [String.append String.length].
  rewrite string_length_app. cbn [String.length].
  replace (S (String.length s + 1) - 2) with (String.length s) by lia.
  cbn [substring]. apply substring_prefix.
Qed.

Lemma has_comma_app (s t : string) :
  has_comma (s ++ t) = has_comma s || has_comma t.
Proof.
  induction s as [|c s IH]; simpl; [reflexivity|].
  now rewrite IH, orb_assoc.
Qed.

Lemma split_comma_none (s : string) :
  has_comma s = false -> split_comma s = [s].
Proof.
  induction s as [|c s IH]; simpl; [reflexivity|].
  intros H. apply orb_false_iff in H as [Hc Hs].
  now rewrite Hc, IH.
Qed.

Lemma split_comma_first (s rest : string) :
  has_comma s = false ->
  split_comma (s ++ String "," rest) = s :: split_comma rest.
Proof.
  induction s as [|c s IH]; simpl; [reflexivity|].
  intros H. apply orb_false_iff in H as [Hc Hs].
  now rewrite Hc, IH.
Qed.

Lemma length_split_comma (s : string) :
  List.length (split_comma s) = S (count_commas s).
Proof.
  induction s as [|c s IH]; simpl; [reflexivity|].
  destruct (Ascii.eqb c ","); simpl.
  - now rewrite IH.
  - destruct (split_comma s); simpl in *; lia.
Qed.

Lemma split_comma_dumped (repr : Q -> string) (xs : list Q) :
  forall x pre,
    has_comma pre = false ->
    Forall (fun y => has_comma (repr y) = false) (x :: xs) ->
    split_comma (pre ++ String.concat ", " (map repr (x :: xs)))
    = (pre ++ repr x)%string
        :: map (fun y => (" " ++ repr y)%string) xs.
Proof.
  induction xs as [|y ys IH]; intros x pre Hpre Hall.
  - simpl. apply split_comma_none.
    rewrite has_comma_app, Hpre. inversion Hall; subst. assumption.
  - inversion Hall as [|? ? Hx Hrest]; subst.
    change (String.concat ", " (map repr (x :: y :: ys)))
      with (repr x ++ String "," (" " ++ String.concat ", "
                                          (map repr (y :: ys))))%string.
    rewrite <- string_app_assoc.
    rewrite split_comma_first by (rewrite has_comma_app, Hpre; exact Hx).
    now rewrite (IH y " "%string eq_refl Hrest).
Qed.

Lemma mapM_length {A B : Type} (f : A -> exn + B) (l : list A) :
  forall l', mapM f l = inr l' -> List.length l' = List.length l.
Proof.
  induction l as [|a l IH]; intros l' H; simpl in H.
  - injection H as <-. reflexivity.
  - destruct (f a) as [e|b]; [discriminate|]. cbn [Exc.bind] in H.
    destruct (mapM f l) as [e|bs]; [discriminate|]. cbn [Exc.bind] in H.
    injection H as <-. simpl. now rewrite (IH bs eq_refl).
Qed.

(** X15: what [process_file] writes in the [content_vector] column,
    [preprocess_content_vector] reads back.  For a non-empty list written
    as [json.dumps] does (brackets, elements separated by a comma and a
    blank), with elements whose text has no comma and is read back by
    [float] with or without the leading blank, the function returns the
    list, and the rest of the row unchanged. *)
Theorem content_vector_round_trip
    (float : string -> exn + Q) (repr : Q -> string)
    (r : row) (v : vector) :
  v <> [] ->
  Forall (fun x => has_comma (repr x) = false
                   /\ float (repr x) = inr x
                   /\ float (" " ++ repr x)%string = inr x) v ->
  content_vector r = dumps_list repr v ->
  preprocess_content_vector float r = inr (r, v).
Proof.
  intros Hne Hall Hcol.
  destruct v as [|x xs]; [congruence|].
  unfold preprocess_content_vector. rewrite Hcol.
  unfold dumps_list. rewrite strip_ends_brackets.
  change (String.concat ", " (map repr (x :: xs)))
    with ("" ++ String.concat ", " (map repr (x :: xs)))%string.
  rewrite split_comma_dumped.
  2: reflexivity.
  2:{ eapply Forall_impl; [|exact Hall]. intros y Hy. apply Hy. }
  inversion Hall as [|? ? (_ & Hx & _) Hrest]; subst.
  assert (Hxs : mapM float (map (fun y => (" " ++ repr y)%string) xs)
                = inr xs).
  { clear -Hrest. induction Hrest as [|y ys (_ & _ & Hy) _ IH];
      [reflexivity|].
    cbn [map mapM]. rewrite Hy. cbn [Exc.bind]. now rewrite IH. }
  cbn [mapM]. change ("" ++ repr x)%string with (repr x).
  rewrite Hx. cbn [Exc.bind]. now rewrite Hxs.
Qed.

Lemma content_vector_round_trip_witness :
  let r := {| id := "0_0"; vector_id := "0_0"; title := "a.txt";
              text := "one"; title_vector := "[495/1, 5/1]";
              content_vector := "[322/1, 3/1]"; category := Some "tools" |} in
  let v := [Qmake 322 1; Qmake 3 1] in
  snd (process_file Demo.env "docs/a.txt" 0 categories embeddings_model)
  = inr [r]
  /\ v <> []
  /\ Forall (fun x => has_comma (Faults.repr x) = false
                      /\ Faults.float (Faults.repr x) = inr x
                      /\ Faults.float (" " ++ Faults.repr x)%string = inr x) v
  /\ content_vector r = dumps_list Faults.repr v
  /\ preprocess_content_vector Faults.float r = inr (r, v).
Proof.
  cbv zeta.
  assert (Hall :
    Forall (fun x => has_comma (Faults.repr x) = false
                     /\ Faults.float (Faults.repr x) = inr x
                     /\ Faults.float (" " ++ Faults.repr x)%string = inr x)
           [Qmake 322 1; Qmake 3 1])
    by (repeat constructor).
  split; [vm_compute; reflexivity|]. split; [discriminate|].
  split; [exact Hall|]. split; [reflexivity|].
  apply (content_vector_round_trip Faults.float Faults.repr _
           [Qmake 322 1; Qmake 3 1]); [discriminate | exact Hall | reflexivity].
Defined.

(** X16: when [preprocess_content_vector] returns, the other columns of the
    row are unchanged and the vector has one number per comma-separated
    field of the column without its first and last character, so at least
    one: the function never produces an empty vector. *)
Theorem content_vector_field_count
    (float : string -> exn + Q) (r r' : row) (v : vector) :
  preprocess_content_vector float r = inr (r', v) ->
  r' = r
  /\ List.length v = S (count_commas (strip_ends (content_vector r)))
  /\ v <> [].
Proof.
  unfold preprocess_content_vector. intros H.
  destruct (mapM float (split_comma (strip_ends (content_vector r))))
    as [e|v'] eqn:Hv; [discriminate|].
  cbn [Exc.bind] in H. injection H as <- <-.
  apply mapM_length in Hv. rewrite length_split_comma in Hv.
  split; [reflexivity|]. split; [exact Hv|].
  intros ->. discriminate.
Qed.

Lemma content_vector_field_count_witness :
  let r := {| id := "0_0"; vector_id := "0_0"; title := "a.txt";
              text := "one"; title_vector := "[495/1, 5/1]";
              content_vector := "[322/1, 3/1]"; category := Some "tools" |} in
  let v := [Qmake 322 1; Qmake 3 1] in
  preprocess_content_vector Faults.float r = inr (r, v)
  /\ r = r
  /\ List.length v = S (count_commas (strip_ends (content_vector r)))
  /\ v <> [].
Proof.
  cbv zeta. split; [reflexivity|].
  apply (content_vector_field_count Faults.float _ _ [Qmake 322 1; Qmake 3 1]).
  reflexivity.
Defined.

(** * When [process_file] raises *)

(** X17: an embedding failure aborts the document.  Once the document has
    been read, the exception of the title embedding, or else that of the
    content embedding, is what [process_file] raises; the lines printed
    show how far it came, nothing is classified and no row is returned. *)
Theorem embedding_failure_aborts_document
    (env : Env) (file_path : string) (idx : nat) (cats : list string)
    (model : string) (t : string) :
  document_text env file_path t ->
  let file_name := basename env file_path in
  let processing :=
    ("Processing file " ++ str_nat (idx + 1) ++ ": " ++ file_name)%string in
  let generated := ("Generated title embeddings for " ++ file_name)%string in
  match len_safe_get_embedding env file_name model
          EMBEDDING_CTX_LENGTH EMBEDDING_ENCODING,
        len_safe_get_embedding env t model
          EMBEDDING_CTX_LENGTH EMBEDDING_ENCODING with
  | inl e, _ =>
      process_file env file_path idx cats model = ([processing], inl e)
  | inr _, inl e =>
      process_file env file_path idx cats model
      = ([processing; generated], inl e)
  | inr _, inr _ => True
  end.
Proof.
  intros Hdoc file_name processing generated.
  destruct (len_safe_get_embedding env file_name model _ _)
    as [e|[tvs tts]] eqn:Htitle;
    [|destruct (len_safe_get_embedding env t model _ _)
        as [e|[cvs cts]] eqn:Hcontent; [|exact I]];
    unfold process_file; fold file_name;
    (destruct Hdoc as [[Htxt Hr]|(Htxt & Hpdf & Hr)];
     fold file_name in Htxt; try fold file_name in Hpdf;
     rewrite Htxt, ?Hpdf, Hr; cbn [IO.bind IO.lift IO.ret IO.print app];
     rewrite Htitle; cbn [IO.bind IO.lift IO.ret IO.print app];
     rewrite ?Hcontent; reflexivity).
Qed.

Lemma embedding_failure_aborts_document_witness :
  document_text Faults.env_embed_flaky "docs/Dd.pdf" "page one page two"
  /\ process_file Faults.env_embed_flaky "docs/Dd.pdf" 2 categories
       embeddings_model
     = (["Processing file 3: Dd.pdf"], inl (APIError "Rate limit reached.")).
Proof.
  assert (Hdoc : document_text Faults.env_embed_flaky "docs/Dd.pdf"
                   "page one page two")
    by (right; repeat split).
  split; [exact Hdoc|].
  exact (embedding_failure_aborts_document Faults.env_embed_flaky
           "docs/Dd.pdf" 2 categories embeddings_model "page one page two"
           Hdoc).
Defined.

(** X18: a title without any chunk makes [process_file] raise [IndexError]
    at [title_text[0]] as soon as the document has a content chunk. *)
Theorem title_without_chunks_raises
    (env : Env) (file_path : string) (idx : nat) (cats : list string)
    (model : string) (t : string) (title_vectors : list vector)
    (cv : vector) (content_vectors : list vector)
    (content_text : list string) :
  document_text env file_path t ->
  len_safe_get_embedding env (basename env file_path) model
    EMBEDDING_CTX_LENGTH EMBEDDING_ENCODING = inr (title_vectors, []) ->
  len_safe_get_embedding env t model
    EMBEDDING_CTX_LENGTH EMBEDDING_ENCODING
  = inr (cv :: content_vectors, content_text) ->
  snd (process_file env file_path idx cats model)
  = inl (IndexError "list index out of range").
Proof.
  intros Hdoc Htitle Hcontent.
  unfold process_file.
  set (file_name := basename env file_path) in *.
  rewrite snd_io_bind. cbn [IO.print snd]. rewrite snd_io_bind.
  match goal with
  | |- context [snd ?m] =>
      match m with
      | (if _ then _ else _) => set (reading := m)
      end
  end.
  assert (Hread : snd reading = inr (Some t)).
  { subst reading.
    destruct Hdoc as [[Htxt Hr]|(Htxt & Hpdf & Hr)].
    - fold file_name in Htxt. rewrite Htxt, Hr. reflexivity.
    - fold file_name in Htxt, Hpdf. rewrite Htxt, Hpdf, Hr. reflexivity. }
  rewrite Hread.
  rewrite snd_io_bind. cbn [IO.lift snd]. rewrite Htitle.
  rewrite snd_io_bind. cbn [IO.print snd].
  rewrite snd_io_bind. cbn [IO.ret snd].
  rewrite snd_io_bind. cbn [IO.lift snd]. rewrite Hcontent.
  rewrite snd_io_bind. cbn [IO.print snd].
  rewrite snd_io_bind.
  destruct (categorize_text_returns env (String.concat " " content_text) cats)
    as (outc & cat & Hcat).
  rewrite Hcat. cbn [snd].
  rewrite snd_io_bind. cbn [IO.print snd].
  unfold enumerate. cbn [List.length seq combine for_io].
  rewrite snd_io_bind. unfold append_row at 1.
  rewrite snd_io_bind. reflexivity.
Qed.

Lemma title_without_chunks_raises_witness :
  document_text Faults.env_digits "docs/a.pdf" "year 2024"
  /\ len_safe_get_embedding Faults.env_digits
        (basename Faults.env_digits "docs/a.pdf") embeddings_model
        EMBEDDING_CTX_LENGTH EMBEDDING_ENCODING = inr ([], [])
  /\ len_safe_get_embedding Faults.env_digits "year 2024" embeddings_model
        EMBEDDING_CTX_LENGTH EMBEDDING_ENCODING
      = inr ([Qmake 200 1; Qmake 4 1] :: [], ["2024"])
  /\ snd (process_file Faults.env_digits "docs/a.pdf" 0 categories
            embeddings_model)
      = inl (IndexError "list index out of range").
Proof.
  assert (Hdoc : document_text Faults.env_digits "docs/a.pdf" "year 2024")
    by (right; repeat split).
  split; [exact Hdoc|]. split; [reflexivity|]. split; [reflexivity|].
  exact (title_without_chunks_raises Faults.env_digits "docs/a.pdf" 0
           categories embeddings_model "year 2024" []
           [Qmake 200 1; Qmake 4 1] [] ["2024"] Hdoc eq_refl eq_refl).
Defined.
